(** * Quota ledger and asset lifecycle of the SaaS media platform

    A shallow embedding of the Mongoose models [User] and [File]
    (backend/models/User.js, backend/models/File.js) and of the route
    handlers that move files through their lifecycle and maintain the
    per-account storage counter (backend/controllers/imageController.js,
    backend/controllers/videoController.js, backend/routes/images.js,
    backend/routes/admin.js).

    Conventions.
    - A JavaScript [Number] that holds a byte count, a usage counter or a
      millisecond timestamp is an integer of [Z]; the floating point
      corner cases (NaN, values beyond 2^53) are outside the model.
    - A Mongo collection is a finite map from document ids to documents.
    - A JavaScript exception is the [Throw] alternative of [result].
    - Database calls themselves ([save], [create], [findById], ...) are
      assumed not to fail for reasons outside the schema validators. *)

From Stdlib Require Import ZArith Bool List.
From stdpp Require Import gmap strings list fin_maps.

Local Open Scope string_scope.
Local Open Scope Z_scope.

(** ** JavaScript completion values *)

Inductive JsError : Type :=
| TypeError        (* property read on [undefined] *)
| ValidationError. (* a Mongoose schema validator rejected [save] *)

Inductive result (A : Type) : Type :=
| Ok (a : A)
| Throw (e : JsError).

Arguments Ok {A} a.
Arguments Throw {A} e.

(** JavaScript truthiness of a string-or-null value: [null],
    [undefined] and the empty string are falsy. *)
Definition truthy (s : option string) : bool :=
  match s with
  | Some str => negb (String.eqb str "")
  | None => false
  end.

(** ** The User model (backend/models/User.js) *)

Module User.

Inductive Role : Type := RoleUser | RoleAdmin | RolePremium.

Inductive SubscriptionType : Type := Free | Monthly | Yearly.

#[global] Instance Role_eq_dec : EqDecision Role.
Proof. solve_decision. Defined.

#[global] Instance SubscriptionType_eq_dec : EqDecision SubscriptionType.
Proof. solve_decision. Defined.

(** One [{ used, limit }] pair of the [features] sub-document. *)
Record Counter : Type := mkCounter { used : Z; limit : Z }.

(** The [features] sub-document.  Its keys are fixed by the schema
    (User.js lines 64-81): Mongoose stores no other key under it. *)
Record Features : Type := mkFeatures {
  imageToText : Counter;
  textToImage : Counter;
  videoDownloads : Counter;
  storage : Counter
}.

Record t : Type := mk {
  role : Role;
  subscription_type : SubscriptionType;
  features : Features
}.

(** Schema defaults (User.js lines 66-79). *)
Definition default_features : Features :=
  {| imageToText := mkCounter 0 10;
     textToImage := mkCounter 0 5;
     videoDownloads := mkCounter 0 5;
     storage := mkCounter 0 104857600 |}.

Definition default_user : t :=
  {| role := RoleUser; subscription_type := Free; features := default_features |}.

(** [this.features[featureName]]: a dynamic property read.  A name that
    is not one of the four schema keys reads as [undefined] ([None]);
    properties inherited from the JavaScript object prototype are
    outside the model. *)
Definition get_feature (fs : Features) (featureName : string) : option Counter :=
  if String.eqb featureName "imageToText" then Some (imageToText fs)
  else if String.eqb featureName "textToImage" then Some (textToImage fs)
  else if String.eqb featureName "videoDownloads" then Some (videoDownloads fs)
  else if String.eqb featureName "storage" then Some (storage fs)
  else None.

(** [this.features[featureName].used = v], for a name that is a key. *)
Definition set_feature_used (fs : Features) (featureName : string) (v : Z) : Features :=
  if String.eqb featureName "imageToText"
  then {| imageToText := mkCounter v (limit (imageToText fs));
          textToImage := textToImage fs;
          videoDownloads := videoDownloads fs;
          storage := storage fs |}
  else if String.eqb featureName "textToImage"
  then {| imageToText := imageToText fs;
          textToImage := mkCounter v (limit (textToImage fs));
          videoDownloads := videoDownloads fs;
          storage := storage fs |}
  else if String.eqb featureName "videoDownloads"
  then {| imageToText := imageToText fs;
          textToImage := textToImage fs;
          videoDownloads := mkCounter v (limit (videoDownloads fs));
          storage := storage fs |}
  else if String.eqb featureName "storage"
  then {| imageToText := imageToText fs;
          textToImage := textToImage fs;
          videoDownloads := videoDownloads fs;
          storage := mkCounter v (limit (storage fs)) |}
  else fs.

Definition set_storage_used (u : t) (v : Z) : t :=
  {| role := role u;
     subscription_type := subscription_type u;
     features :=
       {| imageToText := imageToText (features u);
          textToImage := textToImage (features u);
          videoDownloads := videoDownloads (features u);
          storage := mkCounter v (limit (storage (features u))) |} |}.

Definition storage_used (u : t) : Z := used (storage (features u)).

(** [canUseFeature] (User.js lines 180-186).  For a free subscription
    the counter is read through [this.features[featureName]]; reading
    [.used] of [undefined] throws a [TypeError]. *)
Definition canUseFeature (u : t) (featureName : string) : result bool :=
  if decide (role u = RoleAdmin) then Ok true
  else if decide (subscription_type u = Free) then
    match get_feature (features u) featureName with
    | Some c => Ok (used c <? limit c)
    | None => Throw TypeError
    end
  else Ok true.

(** [incrementFeatureUsage] (User.js lines 189-193). *)
Definition incrementFeatureUsage (featureName : string) (u : t) : t :=
  match get_feature (features u) featureName with
  | Some c =>
      {| role := role u;
         subscription_type := subscription_type u;
         features := set_feature_used (features u) featureName (used c + 1) |}
  | None => u
  end.

(** [hasStorageSpace] (User.js lines 196-199). *)
Definition hasStorageSpace (u : t) (fileSize : Z) : bool :=
  if decide (role u = RoleAdmin) then true
  else storage_used u + fileSize <=? limit (storage (features u)).

(** [addStorageUsage] (User.js lines 202-204). *)
Definition addStorageUsage (fileSize : Z) (u : t) : t :=
  set_storage_used u (storage_used u + fileSize).

(** [removeStorageUsage] (User.js lines 207-209). *)
Definition removeStorageUsage (fileSize : Z) (u : t) : t :=
  set_storage_used u (Z.max 0 (storage_used u - fileSize)).

End User.

(** The feature names that the controllers and routes pass to
    [canUseFeature] and [incrementFeatureUsage]. *)
Definition controller_feature_names : list string :=
  [ "image-resize"; "image-compress"; "image-quality-enhance";
    "background-remove"; "text-to-image"; "image-to-text";
    "youtube-download"; "instagram-download"; "facebook-download";
    "signature-maker"; "passport-photo-maker" ].

(** ** The File model (backend/models/File.js) *)

Module File.

Inductive Status : Type := Uploading | Processing | Completed | Failed | Deleted.

Inductive FileType : Type := Image | Document | Video | Audio | Other.

#[global] Instance Status_eq_dec : EqDecision Status.
Proof. solve_decision. Defined.

#[global] Instance FileType_eq_dec : EqDecision FileType.
Proof. solve_decision. Defined.

(** The [processing] sub-document (File.js lines 58-92).  [feature] is
    a free string checked against an enum by the schema validator;
    dates are millisecond timestamps, [None] is [null] or absent. *)
Record ProcessingInfo : Type := mkProcessing {
  feature : option string;
  progress : Z;
  error : option string;
  startedAt : option Z;
  completedAt : option Z
}.

(** The fields of a file document that the lifecycle and the quota
    accounting read or write.  Names, paths, urls, metadata, tags and
    costs are carried along unchanged by every operation below and are
    left out. *)
Record t : Type := mk {
  size : Z;
  user : nat;                 (* owner, an id of the users collection *)
  type : FileType;
  status : Status;
  processing : ProcessingInfo;
  expiresAt : option Z;
  parentFile : option nat;
  relatedFiles : list nat
}.

(** Schema default of [processing] (File.js lines 74-91). *)
Definition default_processing : ProcessingInfo :=
  {| feature := None; progress := 0; error := None;
     startedAt := None; completedAt := None |}.

(** The enum of [processing.feature] (File.js lines 61-72). *)
Definition processing_features : list string :=
  [ "resize"; "compress"; "convert"; "image-to-text"; "text-to-image";
    "background-remove"; "quality-enhance"; "signature-generate";
    "passport-generate"; "video-download" ].

(** The paths an instance method assigns before it calls [save]. *)
Inductive Path : Type :=
| PStatus | PFeature | PProgress | PError | PStartedAt | PCompletedAt.

(** The schema validator of one path: the enum of [processing.feature]
    and [min: 0, max: 100] of [processing.progress]; [status] is an enum
    too, which the type [Status] already enforces. *)
Definition path_valid (p : Path) (f : t) : bool :=
  match p with
  | PFeature =>
      match feature (processing f) with
      | Some name => existsb (String.eqb name) processing_features
      | None => true
      end
  | PProgress => (0 <=? progress (processing f)) && (progress (processing f) <=? 100)
  | _ => true
  end.

(** [this.save()]: Mongoose validates the modified paths and rejects
    with a [ValidationError] when one fails, in which case nothing is
    written; otherwise the document is what gets stored. *)
Definition save (modified : list Path) (f : t) : result t :=
  if forallb (λ p, path_valid p f) modified then Ok f else Throw ValidationError.

Definition set_status (s : Status) (f : t) : t :=
  {| size := size f; user := user f; type := type f; status := s;
     processing := processing f; expiresAt := expiresAt f;
     parentFile := parentFile f; relatedFiles := relatedFiles f |}.

Definition set_processing (p : ProcessingInfo) (f : t) : t :=
  {| size := size f; user := user f; type := type f; status := status f;
     processing := p; expiresAt := expiresAt f;
     parentFile := parentFile f; relatedFiles := relatedFiles f |}.

(** [originalFile.relatedFiles.push(id)]. *)
Definition push_related (id : nat) (f : t) : t :=
  {| size := size f; user := user f; type := type f; status := status f;
     processing := processing f; expiresAt := expiresAt f;
     parentFile := parentFile f; relatedFiles := relatedFiles f ++ [id] |}.

(** [startProcessing] (File.js lines 224-233).  The whole [processing]
    object is replaced; the assigned object has no [completedAt]. *)
Definition startProcessing (feat : string) (now : Z) (f : t) : result t :=
  save [PStatus; PFeature; PProgress; PStartedAt; PError]
    (set_processing
       {| feature := Some feat; progress := 0; error := None;
          startedAt := Some now; completedAt := None |}
       (set_status Processing f)).

(** [updateProgress] (File.js lines 236-246). *)
Definition updateProgress (p : Z) (err : option string) (now : Z) (f : t) : result t :=
  let pr := processing f in
  let f1 :=
    set_processing
      {| feature := feature pr; progress := p; error := error pr;
         startedAt := startedAt pr; completedAt := completedAt pr |} f in
  if truthy err then
    save [PProgress; PError; PStatus]
      (set_status Failed
         (set_processing
            {| feature := feature pr; progress := p; error := err;
               startedAt := startedAt pr; completedAt := completedAt pr |} f1))
  else if 100 <=? p then
    save [PProgress; PStatus; PCompletedAt]
      (set_processing
         {| feature := feature pr; progress := p; error := error pr;
            startedAt := startedAt pr; completedAt := Some now |}
         (set_status Completed f1))
  else save [PProgress] f1.

(** [completeProcessing] (File.js lines 249-254). *)
Definition completeProcessing (now : Z) (f : t) : result t :=
  let pr := processing f in
  save [PStatus; PProgress; PCompletedAt]
    (set_processing
       {| feature := feature pr; progress := 100; error := error pr;
          startedAt := startedAt pr; completedAt := Some now |}
       (set_status Completed f)).

(** The filter [{ expiresAt: { $lt: now } }]: a [null] date never
    matches a [$lt] comparison against a date. *)
Definition expired (now : Z) (f : t) : bool :=
  match expiresAt f with
  | Some e => e <? now
  | None => false
  end.

(** [cleanupExpired] (File.js lines 216-221): [updateMany] sets
    [status] on every matching document of the collection and on no
    other; it bypasses [save] and its validators. *)
Definition cleanupExpired (now : Z) (files : gmap nat t) : gmap nat t :=
  (λ f, if expired now f then set_status Deleted f else f) <$> files.

End File.

(** ** The database and the HTTP responses *)

(** The two collections the handlers touch.  The usage log written by
    [Usage.create] is append-only, is read by none of the operations
    below and is left out. *)
Record Db : Type := mkDb {
  files : gmap nat File.t;
  users : gmap nat User.t
}.

(** The status code a handler answers with; the JSON body carries
    [success: true] exactly for 200. *)
Inductive Response : Type :=
| Ok200 | BadRequest400 | Unauthorized401 | Forbidden403 | NotFound404
| ServerError500.

Definition success (r : Response) : bool :=
  match r with
  | Ok200 => true
  | _ => false
  end.

(** [req.user] is the stored document of the authenticated account.
    The [protect] middleware that loads it is mounted in front of every
    route; a request without an account does not reach a handler. *)
Definition with_user (uid : nat) (db : Db)
    (k : User.t → Response * Db) : Response * Db :=
  match users db !! uid with
  | Some u => k u
  | None => (Unauthorized401, db)
  end.

(** [await req.user.save()]. *)
Definition save_user (uid : nat) (u : User.t) (db : Db) : Db :=
  {| files := files db; users := <[uid := u]> (users db) |}.

(** [await file.save()] of a document loaded with [findById]. *)
Definition store_file (id : nat) (f : File.t) (db : Db) : Db :=
  {| files := <[id := f]> (files db); users := users db |}.

(** [File.create({..., status: 'completed', ...})] as the controllers
    call it: [newId] is the fresh [_id] Mongo assigns. *)
Definition created_file (owner : nat) (sz : Z) (ty : File.FileType)
    (parent : option nat) : File.t :=
  {| File.size := sz; File.user := owner; File.type := ty;
     File.status := File.Completed;
     File.processing := File.default_processing;
     File.expiresAt := None; File.parentFile := parent;
     File.relatedFiles := [] |}.

(** ** Route handlers *)

(** [uploadImage] (imageController.js lines 10-87).  [file] is
    [req.file.size] when multer stored an upload; [readable] tells
    whether [sharp(filePath).metadata()] succeeds. *)
Definition uploadImage (uid : nat) (file : option Z) (readable : bool)
    (newId : nat) (db : Db) : Response * Db :=
  with_user uid db (λ u,
    match file with
    | None => (BadRequest400, db)
    | Some sz =>
        if negb readable then (ServerError500, db)
        else
          let db1 := store_file newId (created_file uid sz File.Image None) db in
          (Ok200, save_user uid (User.addStorageUsage sz u) db1)
    end).

(** [resizeImage] (imageController.js lines 92-242).  [engine] is
    [stats.size] of the written output when sharp and the file system
    succeed, [None] when one of them throws; [t0] and [t1] are the
    clock readings of [startProcessing] and [completeProcessing]. *)
Definition resizeImage (uid : nat) (fileId : option nat) (engine : option Z)
    (newId : nat) (t0 t1 : Z) (db : Db) : Response * Db :=
  with_user uid db (λ u,
    match fileId with
    | None => (BadRequest400, db)
    | Some fid =>
        match files db !! fid with
        | None => (NotFound404, db)
        | Some originalFile =>
            if negb (bool_decide (File.user originalFile = uid))
            then (NotFound404, db)
            else if negb (bool_decide (File.type originalFile = File.Image))
            then (BadRequest400, db)
            else
              match User.canUseFeature u "image-resize" with
              | Throw _ => (ServerError500, db)
              | Ok false => (Forbidden403, db)
              | Ok true =>
                  match File.startProcessing "resize" t0 originalFile with
                  | Throw _ => (ServerError500, db)
                  | Ok started =>
                      let db1 := store_file fid started db in
                      match engine with
                      | None => (ServerError500, db1)
                      | Some sz =>
                          let db2 :=
                            store_file newId
                              (created_file uid sz File.Image (Some fid)) db1 in
                          match File.completeProcessing t1
                                  (File.push_related newId started) with
                          | Throw _ => (ServerError500, db2)
                          | Ok completed =>
                              let db3 := store_file fid completed db2 in
                              let u1 := User.addStorageUsage sz u in
                              let u2 := User.incrementFeatureUsage "image-resize" u1 in
                              (Ok200, save_user uid u2 db3)
                          end
                      end
                  end
              end
        end
    end).

(** [textToImage] (videoController.js lines 598-769).  [apiKey] tells
    whether [OPENAI_API_KEY] is set, [generated] whether the image
    generation call returns, [download] is [stats.size] of the locally
    saved copy or [None] when fetching or writing it throws. *)
Definition textToImage (uid : nat) (prompt : option string) (apiKey : bool)
    (generated : bool) (download : option Z) (newId : nat) (db : Db)
    : Response * Db :=
  with_user uid db (λ u,
    if negb (truthy prompt) then (BadRequest400, db)
    else
      match User.canUseFeature u "text-to-image" with
      | Throw _ => (ServerError500, db)
      | Ok false => (Forbidden403, db)
      | Ok true =>
          if negb apiKey then (ServerError500, db)
          else if negb generated then (ServerError500, db)
          else
            match download with
            | None => (Ok200, db)
            | Some sz =>
                let db1 := store_file newId (created_file uid sz File.Image None) db in
                let u1 := User.addStorageUsage sz u in
                let u2 := User.incrementFeatureUsage "text-to-image" u1 in
                (Ok200, save_user uid u2 db1)
            end
      end).

(** [DELETE /api/images/:id] (routes/images.js lines 116-153).  A
    failing [unlink] is caught and logged, so the file system does not
    influence the outcome. *)
Definition deleteImage (uid : nat) (id : nat) (db : Db) : Response * Db :=
  with_user uid db (λ u,
    match files db !! id with
    | None => (NotFound404, db)
    | Some file =>
        if negb (bool_decide (File.user file = uid)) then (NotFound404, db)
        else
          let db1 := save_user uid (User.removeStorageUsage (File.size file) u) db in
          (Ok200, {| files := delete id (files db1); users := users db1 |})
    end).

(** [DELETE /api/admin/files/:id] (routes/admin.js lines 276-301); the
    caller is an administrator, the file may belong to anyone. *)
Definition adminDeleteFile (id : nat) (db : Db) : Response * Db :=
  match files db !! id with
  | None => (NotFound404, db)
  | Some _ => (Ok200, {| files := delete id (files db); users := users db |})
  end.

(** Running the static [File.cleanupExpired] against the database: an
    [updateMany] on the files collection. *)
Definition runCleanupExpired (now : Z) (db : Db) : Db :=
  {| files := File.cleanupExpired now (files db); users := users db |}.

(** ** The instance methods of a file as one family *)

Inductive Method : Type :=
| MStartProcessing (feat : string)
| MUpdateProgress (p : Z) (err : option string)
| MCompleteProcessing.

Definition run_method (m : Method) (now : Z) (f : File.t) : result File.t :=
  match m with
  | MStartProcessing feat => File.startProcessing feat now f
  | MUpdateProgress p err => File.updateProgress p err now f
  | MCompleteProcessing => File.completeProcessing now f
  end.

(** ** Requests of an account on its own files *)

Inductive Request : Type :=
| ReqUpload (uid : nat) (file : option Z) (readable : bool) (newId : nat)
| ReqResize (uid : nat) (fileId : option nat) (engine : option Z)
            (newId : nat) (t0 t1 : Z)
| ReqDelete (uid : nat) (id : nat).

Definition handle (r : Request) (db : Db) : Response * Db :=
  match r with
  | ReqUpload uid file readable newId => uploadImage uid file readable newId db
  | ReqResize uid fileId engine newId t0 t1 =>
      resizeImage uid fileId engine newId t0 t1 db
  | ReqDelete uid id => deleteImage uid id db
  end.

(** What the environment guarantees about a request: the id Mongo
    assigns to a created document is not in use, and sizes reported by
    multer and by [fs.stat] are not negative. *)
Definition well_formed_request (r : Request) (db : Db) : Prop :=
  match r with
  | ReqUpload _ file _ newId =>
      files db !! newId = None ∧ (∀ sz, file = Some sz → 0 <= sz)
  | ReqResize _ _ engine newId _ _ =>
      files db !! newId = None ∧ (∀ sz, engine = Some sz → 0 <= sz)
  | ReqDelete _ _ => True
  end.

(** The states an account can bring the database into from [db0]. *)
Inductive reachable_from (db0 : Db) : Db → Prop :=
| reach_refl : reachable_from db0 db0
| reach_step db r :
    reachable_from db0 db →
    well_formed_request r db →
    reachable_from db0 (handle r db).2.

(** ** The properties the specification states, in its own words *)

(** A file counts toward storage when its state is completed or
    processing. *)
Definition chargeable (f : File.t) : bool :=
  match File.status f with
  | File.Completed | File.Processing => true
  | _ => false
  end.

(** What one file adds to the sum of account [uid]. *)
Definition charged_bytes (uid : nat) (f : File.t) : Z :=
  if bool_decide (File.user f = uid) && chargeable f then File.size f else 0.

(** Sum of [size] over the chargeable files owned by [uid]. *)
Definition owned_live_bytes (uid : nat) (fs : gmap nat File.t) : Z :=
  map_fold (λ _ f acc, charged_bytes uid f + acc) 0 fs.

(** Specification, storage invariant: every account's counter equals
    the sum over its chargeable files. *)
Definition spec_storage_invariant (db : Db) : Prop :=
  ∀ uid u, users db !! uid = Some u →
    User.storage_used u = owned_live_bytes uid (files db).

(** What holds of every database the owner routes produce: the
    specification's invariant, together with the two facts it rests on,
    that sizes are not negative and every stored file is chargeable. *)
Definition ledger_consistent (db : Db) : Prop :=
  spec_storage_invariant db ∧
  ∀ id f, files db !! id = Some f → 0 <= File.size f ∧ chargeable f = true.

(** Specification, expiry sweep: the assets it is to act on. *)
Definition spec_sweep_selects (now : Z) (f : File.t) : bool :=
  match File.expiresAt f with
  | Some e =>
      (e <=? now) &&
      match File.status f with
      | File.Completed | File.Failed => true
      | _ => false
      end
  | None => false
  end.

(** Specification, expiry sweep, on the file collection: exactly the
    selected assets become deleted, all others stay as they are.  (The
    storage adjustment the specification asks for in addition is a
    further conjunct of the claim.) *)
Definition spec_sweep_transitions (now : Z) (fs : gmap nat File.t) : Prop :=
  ∀ id f, fs !! id = Some f →
    if spec_sweep_selects now f
    then ∃ f', File.cleanupExpired now fs !! id = Some f' ∧
               File.status f' = File.Deleted
    else File.cleanupExpired now fs !! id = Some f.

(** Specification, double delete: the second call changes nothing and
    reports success. *)
Definition spec_second_delete_succeeds (uid id : nat) (db : Db) : Prop :=
  let db1 := (deleteImage uid id db).2 in
  let second := deleteImage uid id db1 in
  second.2 = db1 ∧ success second.1 = true.

(** Specification, derivation: a deleted or foreign parent is refused
    and no record is created. *)
Definition spec_invalid_parent_rejected (uid fid : nat) (engine : option Z)
    (newId : nat) (t0 t1 : Z) (db : Db) : Prop :=
  ∀ parent, files db !! fid = Some parent →
    File.status parent = File.Deleted ∨ File.user parent ≠ uid →
    let out := resizeImage uid (Some fid) engine newId t0 t1 db in
    success out.1 = false ∧
    ∀ id, files db !! id = None → files out.2 !! id = None.

(** Specification, begin processing: from a state other than
    uploading or completed the call fails and the state stays. *)
Definition spec_startProcessing_guarded (feat : string) (now : Z) (f : File.t) : Prop :=
  File.status f ≠ File.Uploading → File.status f ≠ File.Completed →
  ∀ f', File.startProcessing feat now f ≠ Ok f'.

(** ** Concrete accounts and files used in the examples *)

(** A free account whose text-to-image counter is at its limit. *)
Definition user_at_limit : User.t :=
  {| User.role := User.RoleUser; User.subscription_type := User.Free;
     User.features :=
       {| User.imageToText := User.mkCounter 0 10;
          User.textToImage := User.mkCounter 5 5;
          User.videoDownloads := User.mkCounter 0 5;
          User.storage := User.mkCounter 0 104857600 |} |}.

(** A paying account with the default counters. *)
Definition monthly_user : User.t :=
  {| User.role := User.RoleUser; User.subscription_type := User.Monthly;
     User.features := User.default_features |}.

(** An image of 600 bytes owned by account 1, in a given state and
    with a given expiry date. *)
Definition image600 (st : File.Status) (expiry : option Z) : File.t :=
  {| File.size := 600; File.user := 1%nat; File.type := File.Image;
     File.status := st; File.processing := File.default_processing;
     File.expiresAt := expiry; File.parentFile := None;
     File.relatedFiles := [] |}.

Definition one_user_db (u : User.t) (fs : gmap nat File.t) : Db :=
  {| files := fs; users := {[ 1%nat := u ]} |}.

(** ** Further handlers and statics of the same files *)

(** An account that [canUseFeature] lets through without reading a
    counter: an administrator, or any subscription other than free. *)
Definition entitled (u : User.t) : bool :=
  bool_decide (User.role u = User.RoleAdmin) ||
  negb (bool_decide (User.subscription_type u = User.Free)).

(** The four image derivations of imageController.js share one body:
    [resizeImage] (lines 92-242), [compressImage] (247-381),
    [enhanceImage] (386-535) and [removeBackground] (540-663) differ in
    the name passed to [canUseFeature] and [incrementFeatureUsage]
    ([quotaName]), in the name passed to [startProcessing]
    ([procName]), and in that only [resizeImage] answers 400 for a
    parent that is not an image ([checkType]). *)
Definition deriveImage (checkType : bool) (quotaName procName : string)
    (uid : nat) (fileId : option nat) (engine : option Z)
    (newId : nat) (t0 t1 : Z) (db : Db) : Response * Db :=
  with_user uid db (λ u,
    match fileId with
    | None => (BadRequest400, db)
    | Some fid =>
        match files db !! fid with
        | None => (NotFound404, db)
        | Some originalFile =>
            if negb (bool_decide (File.user originalFile = uid))
            then (NotFound404, db)
            else if checkType && negb (bool_decide (File.type originalFile = File.Image))
            then (BadRequest400, db)
            else
              match User.canUseFeature u quotaName with
              | Throw _ => (ServerError500, db)
              | Ok false => (Forbidden403, db)
              | Ok true =>
                  match File.startProcessing procName t0 originalFile with
                  | Throw _ => (ServerError500, db)
                  | Ok started =>
                      let db1 := store_file fid started db in
                      match engine with
                      | None => (ServerError500, db1)
                      | Some sz =>
                          let db2 :=
                            store_file newId
                              (created_file uid sz File.Image (Some fid)) db1 in
                          match File.completeProcessing t1
                                  (File.push_related newId started) with
                          | Throw _ => (ServerError500, db2)
                          | Ok completed =>
                              let db3 := store_file fid completed db2 in
                              let u1 := User.addStorageUsage sz u in
                              let u2 := User.incrementFeatureUsage quotaName u1 in
                              (Ok200, save_user uid u2 db3)
                          end
                      end
                  end
              end
        end
    end).

Definition compressImage := deriveImage false "image-compress" "compress".

Definition enhanceImage := deriveImage false "image-quality-enhance" "quality-enhance".

Definition removeBackground := deriveImage false "background-remove" "background-remove".

(** The derivations besides resize, as one family. *)
Inductive Derivation : Type := Compress | Enhance | RemoveBackground.

Definition derive (d : Derivation) :
    nat → option nat → option Z → nat → Z → Z → Db → Response * Db :=
  match d with
  | Compress => compressImage
  | Enhance => enhanceImage
  | RemoveBackground => removeBackground
  end.

(** [imageToText] (videoController.js lines 465-593).  [imageUrl] and
    [fileId] are the two body fields; [readable] tells whether
    [fs.readFile] of the stored file succeeds, [worker] whether the OCR
    worker can be created and terminated (a failing recognition is
    caught and replaced by a fallback text). *)
Definition imageToText (uid : nat) (imageUrl : option string)
    (fileId : option nat) (readable worker : bool) (db : Db) : Response * Db :=
  with_user uid db (λ u,
    if negb (truthy imageUrl) && negb (bool_decide (is_Some fileId))
    then (BadRequest400, db)
    else
      match User.canUseFeature u "image-to-text" with
      | Throw _ => (ServerError500, db)
      | Ok false => (Forbidden403, db)
      | Ok true =>
          match fileId with
          | Some fid =>
              match files db !! fid with
              | None => (NotFound404, db)
              | Some file =>
                  if negb (bool_decide (File.user file = uid)) then (NotFound404, db)
                  else if negb readable then (ServerError500, db)
                  else if negb worker then (ServerError500, db)
                  else
                    (Ok200,
                     save_user uid (User.incrementFeatureUsage "image-to-text" u) db)
              end
          | None => (BadRequest400, db)
          end
      end).

(** One row of the [$group] stage of [getStorageUsage]. *)
Record StorageUsage : Type := mkStorageUsage {
  group_id : nat;      (* [_id], the owner *)
  totalSize : Z;
  fileCount : nat
}.

(** The [$match] stage of [getStorageUsage]. *)
Definition usage_matches (userId : nat) (f : File.t) : bool :=
  bool_decide (File.user f = userId) &&
  negb (bool_decide (File.status f = File.Deleted)).

(** [getStorageUsage] (File.js lines 202-213): the files of [userId]
    that are not deleted, grouped by owner.  The aggregation yields no
    row when nothing matches and one row otherwise. *)
Definition getStorageUsage (userId : nat) (fs : gmap nat File.t) : list StorageUsage :=
  let matched := filter (λ kv, usage_matches userId kv.2 = true) fs in
  if bool_decide (matched = ∅) then []
  else [ {| group_id := userId;
            totalSize := map_fold (λ _ f acc, File.size f + acc) 0 matched;
            fileCount := size matched |} ].

(** Every request an account can make on its own data through the
    handlers modelled here. *)
Inductive Action : Type :=
| ActOwner (r : Request)
| ActDerive (d : Derivation) (uid : nat) (fileId : option nat)
            (engine : option Z) (newId : nat) (t0 t1 : Z)
| ActTextToImage (uid : nat) (prompt : option string) (apiKey generated : bool)
                 (download : option Z) (newId : nat)
| ActImageToText (uid : nat) (imageUrl : option string) (fileId : option nat)
                 (readable worker : bool).

Definition perform (a : Action) (db : Db) : Response * Db :=
  match a with
  | ActOwner r => handle r db
  | ActDerive d uid fileId engine newId t0 t1 =>
      derive d uid fileId engine newId t0 t1 db
  | ActTextToImage uid prompt apiKey generated download newId =>
      textToImage uid prompt apiKey generated download newId db
  | ActImageToText uid imageUrl fileId readable worker =>
      imageToText uid imageUrl fileId readable worker db
  end.

(** What the environment guarantees about an action: fresh ids for
    created documents and sizes that are not negative. *)
Definition well_formed_action (a : Action) (db : Db) : Prop :=
  match a with
  | ActOwner r => well_formed_request r db
  | ActDerive _ _ _ engine newId _ _ =>
      files db !! newId = None ∧ (∀ sz, engine = Some sz → 0 <= sz)
  | ActTextToImage _ _ _ _ download newId =>
      files db !! newId = None ∧ (∀ sz, download = Some sz → 0 <= sz)
  | ActImageToText _ _ _ _ _ => True
  end.

Inductive reachable_by_actions (db0 : Db) : Db → Prop :=
| reach_actions_refl : reachable_by_actions db0 db0
| reach_actions_step db a :
    reachable_by_actions db0 db →
    well_formed_action a db →
    reachable_by_actions db0 (perform a db).2.

(** Two versions of a file document that agree on everything no
    lifecycle method assigns. *)
Definition same_identity (f f' : File.t) : Prop :=
  File.size f' = File.size f ∧ File.user f' = File.user f ∧
  File.type f' = File.type f ∧ File.expiresAt f' = File.expiresAt f ∧
  File.parentFile f' = File.parentFile f.

(** A document as [File.create] stores it in the image handlers. *)
Definition freshly_created (f' : File.t) : Prop :=
  ∃ uid sz parent, f' = created_file uid sz File.Image parent.

(** The parent as [startProcessing] stores it. *)
Definition started_parent (procName : string) (t0 : Z) (orig : File.t) : File.t :=
  File.set_processing
    {| File.feature := Some procName; File.progress := 0; File.error := None;
       File.startedAt := Some t0; File.completedAt := None |}
    (File.set_status File.Processing orig).

(** The stored parent after a successful derivation. *)
Definition completed_parent (newId : nat) (t1 : Z) (started : File.t) : File.t :=
  File.set_processing
    {| File.feature := File.feature (File.processing started);
       File.progress := 100;
       File.error := File.error (File.processing started);
       File.startedAt := File.startedAt (File.processing started);
       File.completedAt := Some t1 |}
    (File.set_status File.Completed (File.push_related newId started)).

(** The account an action is made by. *)
Definition actor (a : Action) : nat :=
  match a with
  | ActOwner (ReqUpload uid _ _ _) => uid
  | ActOwner (ReqResize uid _ _ _ _ _) => uid
  | ActOwner (ReqDelete uid _) => uid
  | ActDerive _ uid _ _ _ _ _ => uid
  | ActTextToImage uid _ _ _ _ _ => uid
  | ActImageToText uid _ _ _ _ => uid
  end.

(** The five ways in which an action of account [uid] can leave the
    database: unchanged; one created file charged to [uid]; a parent of
    [uid] stored as processing (the engine failed); a full derivation;
    one file of [uid] removed and credited.  [wf] stands for what the
    environment guarantees, from which the created id is fresh and the
    size not negative. *)
Inductive effect (wf : Prop) (uid : nat) (db : Db) : Db → Prop :=
| eff_none : effect wf uid db db
| eff_create u sz parent newId :
    users db !! uid = Some u →
    (wf → files db !! newId = None ∧ 0 <= sz) →
    effect wf uid db
      (save_user uid (User.addStorageUsage sz u)
         (store_file newId (created_file uid sz File.Image parent) db))
| eff_start fid orig started :
    files db !! fid = Some orig →
    File.user orig = uid →
    same_identity orig started →
    File.status started = File.Processing →
    effect wf uid db (store_file fid started db)
| eff_derive fid orig u sz newId started completed :
    users db !! uid = Some u →
    files db !! fid = Some orig →
    File.user orig = uid →
    (wf → files db !! newId = None ∧ 0 <= sz) →
    same_identity orig started →
    File.status started = File.Processing →
    same_identity orig completed →
    File.status completed = File.Completed →
    effect wf uid db
      (save_user uid (User.addStorageUsage sz u)
         (store_file fid completed
            (store_file newId (created_file uid sz File.Image (Some fid))
               (store_file fid started db))))
| eff_delete u f id :
    users db !! uid = Some u →
    files db !! id = Some f →
    File.user f = uid →
    effect wf uid db
      {| files := delete id (files db);
         users := <[uid := User.removeStorageUsage (File.size f) u]> (users db) |}.

(** * Theorems *)

(** ** Feature counters *)

Section FeatureLookup.

Variable u : User.t.

Lemma controller_names_not_keys (f : string) :
  In f controller_feature_names →
  User.get_feature (User.features u) f = None.
Proof.
  unfold controller_feature_names. cbn [In].
  intros H. repeat (destruct H as [<- | H]; [reflexivity |]).
  destruct H.
Qed.

(** With the schema's own key the check is an ordinary comparison. *)
Lemma canUseFeature_schema_key :
  User.role u ≠ User.RoleAdmin →
  User.subscription_type u = User.Free →
  User.canUseFeature u "textToImage" =
    Ok (User.used (User.textToImage (User.features u))
        <? User.limit (User.textToImage (User.features u))).
Proof.
  intros Hrole Hsub. unfold User.canUseFeature.
  destruct (decide (User.role u = User.RoleAdmin)); [contradiction |].
  destruct (decide (User.subscription_type u = User.Free)); [| contradiction].
  reflexivity.
Qed.

(** With a name the controllers pass, a free non-admin account makes
    [canUseFeature] throw. *)
Lemma canUseFeature_controller_name_throws (f : string) :
  User.role u ≠ User.RoleAdmin →
  User.subscription_type u = User.Free →
  In f controller_feature_names →
  User.canUseFeature u f = Throw TypeError.
Proof.
  intros Hrole Hsub Hin. unfold User.canUseFeature.
  destruct (decide (User.role u = User.RoleAdmin)); [contradiction |].
  destruct (decide (User.subscription_type u = User.Free)); [| contradiction].
  by rewrite (controller_names_not_keys f Hin).
Qed.

End FeatureLookup.

(** C9. For every user and every feature name that is not a key of the
    user's features map, and in particular for every name the
    controllers pass ('image-resize', 'image-compress',
    'image-quality-enhance', 'background-remove', ...),
    [incrementFeatureUsage] returns the user record unchanged. *)
Theorem incrementFeatureUsage_unknown_noop (u : User.t) (f : string) :
  User.get_feature (User.features u) f = None ∨ In f controller_feature_names →
  User.incrementFeatureUsage f u = u.
Proof.
  intros [H | H]; unfold User.incrementFeatureUsage.
  - by rewrite H.
  - by rewrite (controller_names_not_keys u f H).
Qed.

Lemma incrementFeatureUsage_unknown_noop_witness :
  User.incrementFeatureUsage "image-resize" User.default_user = User.default_user.
Proof.
  apply (incrementFeatureUsage_unknown_noop User.default_user "image-resize").
  right. cbn. tauto.
Defined.

(** For a key of the schema the counter does go up by one. *)
Lemma incrementFeatureUsage_schema_key (u : User.t) :
  User.used (User.textToImage (User.features (User.incrementFeatureUsage "textToImage" u)))
  = User.used (User.textToImage (User.features u)) + 1.
Proof. reflexivity. Qed.

(** C10. When [features.storage.used] is not negative,
    [removeStorageUsage] leaves it not negative, whatever [fileSize]
    is: the new value is [max 0 (used - fileSize)]. *)
Theorem removeStorageUsage_nonneg (u : User.t) (fileSize : Z) :
  0 <= User.storage_used u →
  0 <= User.storage_used (User.removeStorageUsage fileSize u) ∧
  User.storage_used (User.removeStorageUsage fileSize u)
    = Z.max 0 (User.storage_used u - fileSize).
Proof.
  intros _. unfold User.removeStorageUsage, User.set_storage_used, User.storage_used.
  cbn. split; [lia | reflexivity].
Qed.

Lemma removeStorageUsage_nonneg_witness :
  0 <= User.storage_used (User.removeStorageUsage 700 (User.addStorageUsage 600 User.default_user)) ∧
  User.storage_used (User.removeStorageUsage 700 (User.addStorageUsage 600 User.default_user))
    = Z.max 0 (User.storage_used (User.addStorageUsage 600 User.default_user) - 700).
Proof.
  apply (removeStorageUsage_nonneg (User.addStorageUsage 600 User.default_user) 700).
  vm_compute. discriminate.
Defined.

(** [removeStorageUsage] touches nothing but the storage counter. *)
Lemma removeStorageUsage_frame (u : User.t) (fileSize : Z) :
  User.role (User.removeStorageUsage fileSize u) = User.role u ∧
  User.subscription_type (User.removeStorageUsage fileSize u) = User.subscription_type u ∧
  User.limit (User.storage (User.features (User.removeStorageUsage fileSize u)))
    = User.limit (User.storage (User.features u)).
Proof. by repeat split. Qed.

(** C8. The claim that the lookup inside [canUseFeature] is defined for
    the names the handlers pass does not hold of the code: for a free
    account with the schema's default counters every one of those names
    reads [undefined] and the comparison throws a [TypeError]. *)
Theorem canUseFeature_default_user_throws :
  Forall (λ f, User.get_feature (User.features User.default_user) f = None ∧
               User.canUseFeature User.default_user f = Throw TypeError)
         controller_feature_names.
Proof. repeat constructor. Qed.

(** C2. A free account with [textToImage] at [used = 5, limit = 5]
    asks for one more image: the handler answers 500, not the 403 of a
    denied request, because [canUseFeature('text-to-image')] throws;
    the database, and with it the counter, is unchanged. *)
Theorem textToImage_at_limit_not_denied :
  let db := one_user_db user_at_limit ∅ in
  User.canUseFeature user_at_limit "text-to-image" = Throw TypeError ∧
  textToImage 1 (Some "a red kite") true true (Some 2048) 0 db
    = (ServerError500, db) ∧
  ServerError500 ≠ Forbidden403.
Proof. cbn. repeat split. discriminate. Qed.

(** The same account one use below its limit is refused in the same
    way, so the failure is not a quota decision. *)
Lemma textToImage_below_limit_fails :
  let db := one_user_db User.default_user ∅ in
  textToImage 1 (Some "a red kite") true true (Some 2048) 0 db
    = (ServerError500, db).
Proof. reflexivity. Qed.

(** ** File lifecycle *)

Lemma save_Ok (ps : list File.Path) (f f' : File.t) :
  File.save ps f = Ok f' →
  f' = f ∧ forallb (λ p, File.path_valid p f) ps = true.
Proof.
  unfold File.save. destruct (forallb _ ps); [| discriminate].
  intros [= <-]. done.
Qed.

Lemma completeProcessing_eq (now : Z) (f : File.t) :
  File.completeProcessing now f =
    Ok (File.set_processing
          {| File.feature := File.feature (File.processing f);
             File.progress := 100;
             File.error := File.error (File.processing f);
             File.startedAt := File.startedAt (File.processing f);
             File.completedAt := Some now |}
          (File.set_status File.Completed f)).
Proof. reflexivity. Qed.

(** [completeProcessing] passes validation on every document. *)
Lemma completeProcessing_Ok (now : Z) (f : File.t) :
  ∃ f', File.completeProcessing now f = Ok f' ∧
        File.status f' = File.Completed ∧
        File.progress (File.processing f') = 100 ∧
        File.completedAt (File.processing f') = Some now ∧
        File.size f' = File.size f ∧ File.user f' = File.user f ∧
        File.relatedFiles f' = File.relatedFiles f.
Proof. eexists. by repeat split. Qed.

(** C7. Whenever an instance method stores a file that was processing
    as completed, the stored progress is 100 and [completedAt] is set
    (to the time of the call).  For [updateProgress] this rests on the
    schema bound [max: 100] of [processing.progress]: a larger value is
    rejected by [save]. *)
Theorem processing_to_completed (m : Method) (now : Z) (f f' : File.t) :
  File.status f = File.Processing →
  run_method m now f = Ok f' →
  File.status f' = File.Completed →
  File.progress (File.processing f') = 100 ∧
  File.completedAt (File.processing f') = Some now.
Proof.
  intros Hproc Hrun Hdone. destruct m as [feat | p err |]; cbn [run_method] in Hrun.
  - apply save_Ok in Hrun as [-> _]. discriminate Hdone.
  - unfold File.updateProgress in Hrun.
    destruct (truthy err).
    { apply save_Ok in Hrun as [-> _]. discriminate Hdone. }
    destruct (100 <=? p) eqn:Hp.
    + apply save_Ok in Hrun as [-> Hvalid]. cbn in Hvalid |- *.
      split; [| reflexivity]. lia.
    + apply save_Ok in Hrun as [-> _]. cbn in Hdone. congruence.
  - apply save_Ok in Hrun as [-> _]. done.
Qed.

Lemma processing_to_completed_witness :
  File.progress (File.processing
    (File.set_processing
       (File.mkProcessing None 100 None None (Some 42))
       (image600 File.Completed None))) = 100 ∧
  File.completedAt (File.processing
    (File.set_processing
       (File.mkProcessing None 100 None None (Some 42))
       (image600 File.Completed None))) = Some 42.
Proof.
  apply (processing_to_completed (MUpdateProgress 100 None) 42
           (image600 File.Processing None)); reflexivity.
Defined.

(** A progress value above the schema maximum is not stored. *)
Lemma updateProgress_above_max_rejected (p : Z) (now : Z) (f : File.t) :
  100 < p → File.updateProgress p None now f = Throw ValidationError.
Proof.
  intros Hp. unfold File.updateProgress. cbn [truthy].
  destruct (100 <=? p) eqn:E; [| lia].
  unfold File.save. cbn.
  destruct (p <=? 100) eqn:E'; [lia |].
  by rewrite andb_false_r.
Qed.

(** C6, as amended.  [startProcessing] checks no state: for every
    feature of the schema's enum and from every prior state, deleted
    and failed included, it stores the file as processing with progress
    0, the start time set and the error cleared, and never fails. *)
Theorem startProcessing_from_any_state (feat : string) (now : Z) (f : File.t) :
  In feat File.processing_features →
  ∃ f', File.startProcessing feat now f = Ok f' ∧
        File.status f' = File.Processing ∧
        File.progress (File.processing f') = 0 ∧
        File.startedAt (File.processing f') = Some now ∧
        File.error (File.processing f') = None ∧
        File.feature (File.processing f') = Some feat ∧
        File.size f' = File.size f ∧ File.user f' = File.user f.
Proof.
  intros Hin.
  assert (existsb (String.eqb feat) File.processing_features = true) as Henum.
  { apply existsb_exists. exists feat. split; [done | apply String.eqb_refl]. }
  unfold File.startProcessing, File.save.
  cbn [forallb File.path_valid File.processing File.set_processing
       File.feature File.progress].
  rewrite Henum. cbn. eexists. split; [reflexivity |]. by repeat split.
Qed.

Lemma startProcessing_from_any_state_witness :
  ∃ f', File.startProcessing "resize" 7 (image600 File.Deleted None) = Ok f' ∧
        File.status f' = File.Processing ∧
        File.progress (File.processing f') = 0 ∧
        File.startedAt (File.processing f') = Some 7 ∧
        File.error (File.processing f') = None ∧
        File.feature (File.processing f') = Some "resize" ∧
        File.size f' = File.size (image600 File.Deleted None) ∧
        File.user f' = File.user (image600 File.Deleted None).
Proof.
  apply (startProcessing_from_any_state "resize" 7 (image600 File.Deleted None)).
  cbn. tauto.
Defined.

(** C6, counterexample to the claim as stated: a deleted file is
    neither uploading nor completed, and [startProcessing] succeeds on
    it. *)
Lemma startProcessing_guard_counterexample :
  ¬ spec_startProcessing_guarded "resize" 7 (image600 File.Deleted None).
Proof.
  intros H. eapply H; [discriminate | discriminate | reflexivity].
Qed.

(** ** Expiry sweep *)

(** C3, as amended.  [cleanupExpired] acts on a file exactly when its
    [expiresAt] is set and strictly before [now], whatever its state:
    such a file gets state deleted and keeps all other fields; every
    other file, and the set of ids, is left as it is. *)
Theorem cleanupExpired_effect (now : Z) (fs : gmap nat File.t) (id : nat) (f : File.t) :
  fs !! id = Some f →
  ((∃ e, File.expiresAt f = Some e ∧ e < now) →
     File.cleanupExpired now fs !! id = Some (File.set_status File.Deleted f)) ∧
  ((∀ e, File.expiresAt f = Some e → now <= e) →
     File.cleanupExpired now fs !! id = Some f) ∧
  dom (File.cleanupExpired now fs) = dom fs.
Proof.
  intros Hf. unfold File.cleanupExpired. rewrite lookup_fmap, Hf. cbn.
  unfold File.expired. repeat split.
  - intros (e & -> & He). destruct (e <? now) eqn:E; [done | lia].
  - intros Hlate. destruct (File.expiresAt f) as [e |]; [| done].
    specialize (Hlate e eq_refl). destruct (e <? now) eqn:E; [lia | done].
  - apply dom_fmap_L.
Qed.

Lemma cleanupExpired_effect_witness :
  let fs : gmap nat File.t := {[ 0%nat := image600 File.Processing (Some 10) ]} in
  ((∃ e, File.expiresAt (image600 File.Processing (Some 10)) = Some e ∧ e < 20) →
     File.cleanupExpired 20 fs !! 0%nat
       = Some (File.set_status File.Deleted (image600 File.Processing (Some 10)))) ∧
  ((∀ e, File.expiresAt (image600 File.Processing (Some 10)) = Some e → 20 <= e) →
     File.cleanupExpired 20 fs !! 0%nat = Some (image600 File.Processing (Some 10))) ∧
  dom (File.cleanupExpired 20 fs) = dom fs.
Proof.
  apply (cleanupExpired_effect 20 {[ 0%nat := image600 File.Processing (Some 10) ]}
           0%nat (image600 File.Processing (Some 10))).
  reflexivity.
Defined.

(** C3, counterexample to the claim as stated: a completed file whose
    expiry date equals [now] is selected by the specification and is
    not touched by [cleanupExpired]. *)
Lemma cleanupExpired_counterexample :
  ¬ spec_sweep_transitions 20 {[ 0%nat := image600 File.Completed (Some 20) ]}.
Proof.
  intros H.
  specialize (H 0%nat (image600 File.Completed (Some 20)) eq_refl).
  cbn in H. destruct H as (f' & Hlook & Hst).
  vm_compute in Hlook. injection Hlook as <-. discriminate Hst.
Qed.

(** An expired file that is still processing is deleted as well, which
    the specification's state filter excludes. *)
Lemma cleanupExpired_ignores_state :
  File.cleanupExpired 20 {[ 0%nat := image600 File.Processing (Some 10) ]} !! 0%nat
    = Some (image600 File.Deleted (Some 10)).
Proof. reflexivity. Qed.

(** The sweep is idempotent. *)
Lemma cleanupExpired_idempotent (now : Z) (fs : gmap nat File.t) :
  File.cleanupExpired now (File.cleanupExpired now fs) = File.cleanupExpired now fs.
Proof.
  unfold File.cleanupExpired. rewrite <- map_fmap_compose.
  apply map_fmap_ext. intros id f _. cbn.
  destruct (File.expired now f) eqn:E.
  - unfold File.expired in *. cbn. by rewrite E.
  - by rewrite E.
Qed.

(** ** Deleting a file *)

Lemma with_user_found (uid : nat) (db : Db) (u : User.t)
    (k : User.t → Response * Db) :
  users db !! uid = Some u → with_user uid db k = k u.
Proof. intros H. unfold with_user. by rewrite H. Qed.

(** C4, as amended.  Deleting one's own file twice in a row: the first
    call answers 200, removes the record and credits the file's size to
    the owner's storage counter once (clamped at zero); the second call
    finds no record, changes nothing and answers 404 with
    [success: false]. *)
Theorem deleteImage_twice (uid id : nat) (db : Db) (u : User.t) (f : File.t) :
  users db !! uid = Some u →
  files db !! id = Some f →
  File.user f = uid →
  let first := deleteImage uid id db in
  first.1 = Ok200 ∧
  files first.2 = delete id (files db) ∧
  users first.2 = <[uid := User.removeStorageUsage (File.size f) u]> (users db) ∧
  deleteImage uid id first.2 = (NotFound404, first.2).
Proof.
  intros Hu Hf Hown. cbn zeta.
  assert (deleteImage uid id db =
          (Ok200, {| files := delete id (files db);
                     users := <[uid := User.removeStorageUsage (File.size f) u]> (users db) |}))
    as ->.
  { unfold deleteImage. rewrite (with_user_found _ _ _ _ Hu), Hf.
    by rewrite bool_decide_eq_true_2. }
  cbn. repeat split.
  unfold deleteImage, with_user. cbn.
  rewrite lookup_insert_eq, lookup_delete_eq. reflexivity.
Qed.

Lemma deleteImage_twice_witness :
  let db := one_user_db (User.addStorageUsage 600 User.default_user)
              {[ 0%nat := image600 File.Completed None ]} in
  let first := deleteImage 1 0 db in
  first.1 = Ok200 ∧
  files first.2 = delete 0%nat (files db) ∧
  users first.2 =
    <[1%nat := User.removeStorageUsage 600 (User.addStorageUsage 600 User.default_user)]>
      (users db) ∧
  deleteImage 1 0 first.2 = (NotFound404, first.2).
Proof.
  apply (deleteImage_twice 1 0
           (one_user_db (User.addStorageUsage 600 User.default_user)
              {[ 0%nat := image600 File.Completed None ]})
           (User.addStorageUsage 600 User.default_user)
           (image600 File.Completed None)); reflexivity.
Defined.

(** C4, counterexample to the claim as stated: the second delete does
    not report success. *)
Lemma deleteImage_twice_counterexample :
  ¬ spec_second_delete_succeeds 1 0
      (one_user_db (User.addStorageUsage 600 User.default_user)
         {[ 0%nat := image600 File.Completed None ]}).
Proof.
  unfold spec_second_delete_succeeds. intros [_ H].
  vm_compute in H. discriminate H.
Qed.

(** ** Deriving a file from a parent *)

(** C5, as amended.  A resize whose [fileId] names no stored record
    (for instance one removed by the delete route) or a record of
    another account answers 404 and changes nothing, so no record is
    created. *)
Theorem resizeImage_missing_or_foreign_parent (uid fid : nat) (engine : option Z)
    (newId : nat) (t0 t1 : Z) (db : Db) (u : User.t) :
  users db !! uid = Some u →
  (files db !! fid = None ∨
   ∃ parent, files db !! fid = Some parent ∧ File.user parent ≠ uid) →
  resizeImage uid (Some fid) engine newId t0 t1 db = (NotFound404, db).
Proof.
  intros Hu H. unfold resizeImage. rewrite (with_user_found _ _ _ _ Hu).
  destruct H as [-> | (parent & -> & Hforeign)]; [reflexivity |].
  by rewrite bool_decide_eq_false_2.
Qed.

Lemma resizeImage_missing_or_foreign_parent_witness :
  let db := {| files := {[ 0%nat := image600 File.Completed None ]};
               users := {[ 1%nat := monthly_user; 2%nat := monthly_user ]} |} in
  resizeImage 2 (Some 0%nat) (Some 50) 5 10 11 db = (NotFound404, db).
Proof.
  apply (resizeImage_missing_or_foreign_parent 2 0 (Some 50) 5 10 11
           {| files := {[ 0%nat := image600 File.Completed None ]};
              users := {[ 1%nat := monthly_user; 2%nat := monthly_user ]} |}
           monthly_user).
  - reflexivity.
  - right. exists (image600 File.Completed None). split; [reflexivity | cbn; lia].
Defined.

(** C5, counterexample to the claim as stated: the parent's state is
    not looked at.  A paying account resizes its own file that the
    sweep has marked deleted; the call answers 200, creates the derived
    record and leaves the parent completed. *)
Lemma resizeImage_deleted_parent_counterexample :
  ¬ spec_invalid_parent_rejected 1 0 (Some 50) 5 10 11
      (one_user_db monthly_user {[ 0%nat := image600 File.Deleted (Some 3) ]}).
Proof.
  intros H.
  specialize (H (image600 File.Deleted (Some 3)) eq_refl (or_introl eq_refl)).
  destruct H as [H _]. vm_compute in H. discriminate H.
Qed.

Lemma resizeImage_deleted_parent_result :
  let out := resizeImage 1 (Some 0%nat) (Some 50) 5 10 11
               (one_user_db monthly_user {[ 0%nat := image600 File.Deleted (Some 3) ]}) in
  out.1 = Ok200 ∧
  files out.2 !! 5%nat = Some (created_file 1 50 File.Image (Some 0%nat)) ∧
  File.status <$> files out.2 !! 0%nat = Some File.Completed.
Proof. vm_compute. done. Qed.

(** ** The storage counter against the stored files *)

Section OwnedBytes.

Variable uid : nat.

Lemma owned_live_bytes_empty : owned_live_bytes uid ∅ = 0.
Proof. unfold owned_live_bytes. by rewrite map_fold_empty. Qed.

Lemma owned_live_bytes_insert_fresh (fs : gmap nat File.t) (i : nat) (f : File.t) :
  fs !! i = None →
  owned_live_bytes uid (<[i := f]> fs) = charged_bytes uid f + owned_live_bytes uid fs.
Proof.
  intros Hfresh. unfold owned_live_bytes.
  rewrite map_fold_insert_L; [reflexivity | | exact Hfresh].
  intros. lia.
Qed.

Lemma owned_live_bytes_delete (fs : gmap nat File.t) (i : nat) (f : File.t) :
  fs !! i = Some f →
  owned_live_bytes uid (delete i fs) = owned_live_bytes uid fs - charged_bytes uid f.
Proof.
  intros Hf. unfold owned_live_bytes.
  rewrite (map_fold_delete_L _ _ i f fs); [lia | | exact Hf].
  intros. lia.
Qed.

Lemma owned_live_bytes_update (fs : gmap nat File.t) (i : nat) (f f' : File.t) :
  fs !! i = Some f →
  owned_live_bytes uid (<[i := f']> fs)
    = owned_live_bytes uid fs - charged_bytes uid f + charged_bytes uid f'.
Proof.
  intros Hf. rewrite <- insert_delete_eq.
  rewrite owned_live_bytes_insert_fresh by apply lookup_delete_eq.
  rewrite (owned_live_bytes_delete fs i f Hf). lia.
Qed.

Lemma owned_live_bytes_nonneg (fs : gmap nat File.t) :
  (∀ i f, fs !! i = Some f → 0 <= File.size f) →
  0 <= owned_live_bytes uid fs.
Proof.
  induction fs as [| i f fs Hfresh IH] using map_ind; intros Hsizes.
  - by rewrite owned_live_bytes_empty.
  - rewrite owned_live_bytes_insert_fresh by done.
    assert (0 <= File.size f) by (apply (Hsizes i); apply lookup_insert_eq).
    assert (0 <= owned_live_bytes uid fs).
    { apply IH. intros j g Hj. apply (Hsizes j).
      rewrite lookup_insert_ne; [done | congruence]. }
    unfold charged_bytes. destruct (_ && _); lia.
Qed.

End OwnedBytes.

Lemma charged_bytes_owner (uid : nat) (f : File.t) :
  File.user f = uid → chargeable f = true → charged_bytes uid f = File.size f.
Proof. intros Hu H. unfold charged_bytes. by rewrite bool_decide_eq_true_2, H. Qed.

Lemma charged_bytes_other (uid : nat) (f : File.t) :
  File.user f ≠ uid → charged_bytes uid f = 0.
Proof. intros H. unfold charged_bytes. by rewrite bool_decide_eq_false_2. Qed.

Lemma storage_used_add (sz : Z) (u : User.t) :
  User.storage_used (User.addStorageUsage sz u) = User.storage_used u + sz.
Proof. reflexivity. Qed.

Lemma storage_used_increment_resize (u : User.t) :
  User.incrementFeatureUsage "image-resize" u = u.
Proof.
  unfold User.incrementFeatureUsage.
  rewrite (controller_names_not_keys u "image-resize"); [done |].
  cbn. tauto.
Qed.

(** Storing a new chargeable file of [uid] and adding its size to the
    counter of [uid] keeps the ledger consistent. *)
Lemma ledger_consistent_create (db : Db) (uid newId : nat) (u : User.t)
    (sz : Z) (ty : File.FileType) (parent : option nat) :
  ledger_consistent db →
  users db !! uid = Some u →
  files db !! newId = None →
  0 <= sz →
  ledger_consistent
    (save_user uid (User.addStorageUsage sz u)
       (store_file newId (created_file uid sz ty parent) db)).
Proof.
  intros [Hinv Hfiles] Hu Hfresh Hsz. split.
  - intros uid' u' Hu'. cbn in Hu' |- *.
    rewrite owned_live_bytes_insert_fresh by done.
    destruct (decide (uid' = uid)) as [-> | Hne].
    + rewrite lookup_insert_eq in Hu'. injection Hu' as <-.
      rewrite storage_used_add, (Hinv uid u Hu).
      rewrite charged_bytes_owner by done.
      cbn. lia.
    + rewrite lookup_insert_ne in Hu' by done.
      rewrite charged_bytes_other by (cbn; congruence).
      rewrite (Hinv uid' u' Hu'). lia.
  - intros id f. cbn. intros Hf.
    destruct (decide (id = newId)) as [-> | Hne].
    + rewrite lookup_insert_eq in Hf. injection Hf as <-. done.
    + rewrite lookup_insert_ne in Hf by done. by apply (Hfiles id).
Qed.

(** Replacing a stored file by one of the same owner and size that is
    chargeable as well keeps the ledger consistent. *)
Lemma ledger_consistent_restore (db : Db) (id : nat) (f f' : File.t) :
  ledger_consistent db →
  files db !! id = Some f →
  File.user f' = File.user f →
  File.size f' = File.size f →
  chargeable f' = true →
  ledger_consistent (store_file id f' db).
Proof.
  intros [Hinv Hfiles] Hf Huser Hsize Hch.
  destruct (Hfiles id f Hf) as [Hnn Hchf]. split.
  - intros uid u Hu. cbn in Hu |- *.
    rewrite (owned_live_bytes_update uid _ id f f' Hf), (Hinv uid u Hu).
    unfold charged_bytes. rewrite Huser, Hsize, Hch, Hchf. lia.
  - intros j g. cbn. intros Hg.
    destruct (decide (j = id)) as [-> | Hne].
    + rewrite lookup_insert_eq in Hg. injection Hg as <-.
      rewrite Hsize. done.
    + rewrite lookup_insert_ne in Hg by done. by apply (Hfiles j).
Qed.

Lemma uploadImage_keeps_ledger (uid : nat) (file : option Z) (readable : bool)
    (newId : nat) (db : Db) :
  ledger_consistent db →
  files db !! newId = None →
  (∀ sz, file = Some sz → 0 <= sz) →
  ledger_consistent (uploadImage uid file readable newId db).2.
Proof.
  intros Hdb Hfresh Hsz. unfold uploadImage, with_user.
  destruct (users db !! uid) as [u |] eqn:Hu; [| exact Hdb].
  destruct file as [sz |]; [| exact Hdb].
  destruct readable; [| exact Hdb].
  cbn. apply ledger_consistent_create; auto.
Qed.

Lemma resizeImage_keeps_ledger (uid : nat) (fileId : option nat)
    (engine : option Z) (newId : nat) (t0 t1 : Z) (db : Db) :
  ledger_consistent db →
  files db !! newId = None →
  (∀ sz, engine = Some sz → 0 <= sz) →
  ledger_consistent (resizeImage uid fileId engine newId t0 t1 db).2.
Proof.
  intros Hdb Hfresh Hsz. unfold resizeImage, with_user.
  destruct (users db !! uid) as [u |] eqn:Hu; [| exact Hdb].
  destruct fileId as [fid |]; [| exact Hdb].
  destruct (files db !! fid) as [orig |] eqn:Horig; [| exact Hdb].
  destruct (bool_decide (File.user orig = uid)) eqn:Hown; [| exact Hdb].
  apply bool_decide_eq_true_1 in Hown.
  destruct (bool_decide (File.type orig = File.Image)); [| exact Hdb].
  cbn [negb].
  destruct (User.canUseFeature u "image-resize") as [[] | e]; try exact Hdb.
  cbn [File.startProcessing File.save forallb File.path_valid File.processing
       File.set_processing File.feature File.progress existsb
       File.processing_features String.eqb Ascii.eqb Bool.eqb
       Z.leb Z.compare andb orb].
  set (started := File.set_processing _ (File.set_status File.Processing orig)).
  assert (ledger_consistent (store_file fid started db)) as Hdb1.
  { by apply (ledger_consistent_restore db fid orig started). }
  destruct engine as [sz |]; [| exact Hdb1].
  rewrite completeProcessing_eq, storage_used_increment_resize.
  set (done_ := File.set_processing _ (File.set_status File.Completed _)).
  assert (fid ≠ newId) as Hne by congruence.
  cbn [snd].
  apply (ledger_consistent_restore
           (save_user uid (User.addStorageUsage sz u)
              (store_file newId (created_file uid sz File.Image (Some fid))
                 (store_file fid started db)))
           fid started done_); try done.
  - apply ledger_consistent_create; auto.
    cbn. by rewrite lookup_insert_ne.
  - cbn. rewrite lookup_insert_ne by done. apply lookup_insert_eq.
Qed.

Lemma deleteImage_keeps_ledger (uid id : nat) (db : Db) :
  ledger_consistent db →
  ledger_consistent (deleteImage uid id db).2.
Proof.
  intros Hdb. unfold deleteImage, with_user.
  destruct (users db !! uid) as [u |] eqn:Hu; [| exact Hdb].
  destruct (files db !! id) as [f |] eqn:Hf; [| exact Hdb].
  destruct (bool_decide (File.user f = uid)) eqn:Hown; [| exact Hdb].
  apply bool_decide_eq_true_1 in Hown. cbn.
  destruct Hdb as [Hinv Hfiles].
  destruct (Hfiles id f Hf) as [Hnn Hch].
  assert (∀ j g, delete id (files db) !! j = Some g →
                 0 <= File.size g ∧ chargeable g = true) as Hrest.
  { intros j g Hg. apply lookup_delete_Some in Hg as [_ Hg]. by apply (Hfiles j). }
  split; [| exact Hrest].
  intros uid' u' Hu'. cbn in Hu' |- *.
  rewrite (owned_live_bytes_delete uid' (files db) id f Hf).
  destruct (decide (uid' = uid)) as [-> | Hne].
  - rewrite lookup_insert_eq in Hu'. injection Hu' as <-.
    rewrite charged_bytes_owner by done.
    pose proof (owned_live_bytes_nonneg uid (delete id (files db))
                  (λ j g Hg, proj1 (Hrest j g Hg))) as Hpos.
    rewrite (owned_live_bytes_delete uid (files db) id f Hf) in Hpos.
    rewrite charged_bytes_owner in Hpos by done.
    unfold User.removeStorageUsage, User.set_storage_used, User.storage_used. cbn.
    change (User.used (User.storage (User.features u))) with (User.storage_used u).
    rewrite (Hinv uid u Hu). lia.
  - rewrite lookup_insert_ne in Hu' by done.
    rewrite charged_bytes_other by congruence.
    rewrite (Hinv uid' u' Hu'). lia.
Qed.

(** The storage invariant is kept by every request of an account on
    its own files: upload, resize (whether or not the engine succeeds)
    and delete. *)
Theorem owner_requests_keep_ledger (r : Request) (db : Db) :
  ledger_consistent db →
  well_formed_request r db →
  ledger_consistent (handle r db).2.
Proof.
  intros Hdb Hwf. destruct r; cbn in Hwf |- *.
  - destruct Hwf. by apply uploadImage_keeps_ledger.
  - destruct Hwf. by apply resizeImage_keeps_ledger.
  - by apply deleteImage_keeps_ledger.
Qed.

Lemma ledger_consistent_initial (db0 : Db) :
  files db0 = ∅ →
  (∀ uid u, users db0 !! uid = Some u → User.storage_used u = 0) →
  ledger_consistent db0.
Proof.
  intros Hempty Hzero. split.
  - intros uid u Hu. rewrite Hempty, owned_live_bytes_empty. by apply (Hzero uid).
  - intros id f. rewrite Hempty, lookup_empty. discriminate.
Qed.

(** Starting with no files and all counters at zero, the owner routes
    alone never let a counter drift from the sum over the account's
    files. *)
Theorem storage_invariant_owner_routes (db0 db : Db) :
  files db0 = ∅ →
  (∀ uid u, users db0 !! uid = Some u → User.storage_used u = 0) →
  reachable_from db0 db →
  spec_storage_invariant db.
Proof.
  intros Hempty Hzero Hreach.
  enough (ledger_consistent db) as [H _] by exact H.
  induction Hreach as [| db r Hreach IH Hwf].
  - by apply ledger_consistent_initial.
  - by apply owner_requests_keep_ledger.
Qed.

(** The owner's delete route gives the bytes back. *)
Lemma owner_delete_credits_storage :
  let db1 := (uploadImage 1 (Some 600) true 0 (one_user_db User.default_user ∅)).2 in
  let out := deleteImage 1 0 db1 in
  out.1 = Ok200 ∧
  User.storage_used <$> users out.2 !! 1%nat = Some 0 ∧
  owned_live_bytes 1 (files out.2) = 0.
Proof. vm_compute. done. Qed.

(** C1. The invariant does not survive the administrator's delete
    route.  Account 1 uploads 600 bytes, after which its counter and
    the sum over its files are both 600; the administrator deletes the
    file; the record is gone, the sum is 0 and the counter still reads
    600. *)
Theorem admin_delete_drifts_storage_counter :
  let db0 := one_user_db User.default_user ∅ in
  let db1 := (uploadImage 1 (Some 600) true 0 db0).2 in
  let out := adminDeleteFile 0 db1 in
  spec_storage_invariant db1 ∧
  out.1 = Ok200 ∧
  User.storage_used <$> users out.2 !! 1%nat = Some 600 ∧
  owned_live_bytes 1 (files out.2) = 0 ∧
  ¬ spec_storage_invariant out.2.
Proof.
  cbn zeta. split; [| split; [| split; [| split]]].
  - apply (storage_invariant_owner_routes (one_user_db User.default_user ∅)).
    + reflexivity.
    + intros uid u Hu. cbn in Hu.
      apply lookup_singleton_Some in Hu as [_ <-]. reflexivity.
    + apply (reach_step _ _ (ReqUpload 1 (Some 600) true 0)).
      * apply reach_refl.
      * split; [reflexivity |]. intros sz [= <-]. lia.
  - reflexivity.
  - reflexivity.
  - reflexivity.
  - intros Hinv.
    specialize (Hinv 1%nat (User.addStorageUsage 600 User.default_user) eq_refl).
    vm_compute in Hinv. discriminate Hinv.
Qed.

(** The sweep marks an expired file deleted and leaves the counter
    alone as well. *)
Lemma cleanup_leaves_storage_counter :
  let db := one_user_db (User.addStorageUsage 600 User.default_user)
              {[ 0%nat := image600 File.Completed (Some 10) ]} in
  let db' := runCleanupExpired 20 db in
  owned_live_bytes 1 (files db) = 600 ∧
  users db' = users db ∧
  owned_live_bytes 1 (files db') = 0.
Proof. vm_compute. done. Qed.

(** * Further properties of the code *)

(** ** The User methods *)

Lemma get_feature_Some_key (fs : User.Features) (key : string) (c : User.Counter) :
  User.get_feature fs key = Some c →
  key = "imageToText" ∨ key = "textToImage" ∨ key = "videoDownloads" ∨ key = "storage".
Proof.
  unfold User.get_feature.
  destruct (String.eqb key "imageToText") eqn:E1;
    [apply String.eqb_eq in E1; tauto |].
  destruct (String.eqb key "textToImage") eqn:E2;
    [apply String.eqb_eq in E2; tauto |].
  destruct (String.eqb key "videoDownloads") eqn:E3;
    [apply String.eqb_eq in E3; tauto |].
  destruct (String.eqb key "storage") eqn:E4;
    [apply String.eqb_eq in E4; tauto |].
  discriminate.
Qed.

(** X1. Charging a size and crediting the same size gives back the
    user record, provided the counter was not negative to begin with
    (otherwise the clamp at zero shows). *)
Theorem add_remove_storage_roundtrip (u : User.t) (sz : Z) :
  0 <= User.storage_used u →
  User.removeStorageUsage sz (User.addStorageUsage sz u) = u.
Proof.
  destruct u as [r s [a b c [us lim]]].
  unfold User.removeStorageUsage, User.addStorageUsage, User.set_storage_used,
    User.storage_used.
  cbn. intros Hnn. do 3 f_equal. lia.
Qed.

Lemma add_remove_storage_roundtrip_witness :
  User.removeStorageUsage 600 (User.addStorageUsage 600 User.default_user)
    = User.default_user.
Proof.
  apply (add_remove_storage_roundtrip User.default_user 600).
  vm_compute. discriminate.
Defined.

(** X2. For an account that is not an administrator,
    [hasStorageSpace] answers true exactly when charging the size
    keeps the counter within the account's limit. *)
Theorem hasStorageSpace_guards_limit (u : User.t) (fileSize : Z) :
  User.role u ≠ User.RoleAdmin →
  User.hasStorageSpace u fileSize = true ↔
  User.storage_used (User.addStorageUsage fileSize u)
    <= User.limit (User.storage (User.features (User.addStorageUsage fileSize u))).
Proof.
  intros Hrole. unfold User.hasStorageSpace.
  destruct (decide (User.role u = User.RoleAdmin)); [contradiction |].
  cbn. unfold User.storage_used. rewrite Z.leb_le. reflexivity.
Qed.

Lemma hasStorageSpace_guards_limit_witness :
  User.hasStorageSpace User.default_user 104857601 = true ↔
  User.storage_used (User.addStorageUsage 104857601 User.default_user)
    <= User.limit (User.storage (User.features
                     (User.addStorageUsage 104857601 User.default_user))).
Proof.
  apply (hasStorageSpace_guards_limit User.default_user 104857601).
  discriminate.
Defined.

(** X3. Check, then count: when a free, non-admin account passes
    [canUseFeature] for a key of the schema, [incrementFeatureUsage]
    raises that counter by one, keeps its limit, and the counter is
    still within the limit. *)
Theorem check_then_increment_within_limit (u : User.t) (key : string) (c : User.Counter) :
  User.role u ≠ User.RoleAdmin →
  User.subscription_type u = User.Free →
  User.get_feature (User.features u) key = Some c →
  User.canUseFeature u key = Ok true →
  User.get_feature (User.features (User.incrementFeatureUsage key u)) key
    = Some (User.mkCounter (User.used c + 1) (User.limit c)) ∧
  User.used c + 1 <= User.limit c.
Proof.
  intros Hrole Hsub Hget Hcan.
  unfold User.canUseFeature in Hcan.
  destruct (decide (User.role u = User.RoleAdmin)); [contradiction |].
  destruct (decide (User.subscription_type u = User.Free)); [| contradiction].
  rewrite Hget in Hcan. injection Hcan as Hlt. apply Z.ltb_lt in Hlt.
  split; [| lia].
  unfold User.incrementFeatureUsage. rewrite Hget.
  destruct (get_feature_Some_key _ _ _ Hget) as [-> | [-> | [-> | ->]]];
    cbn in Hget |- *; injection Hget as <-; reflexivity.
Qed.

Lemma check_then_increment_within_limit_witness :
  User.get_feature
    (User.features (User.incrementFeatureUsage "textToImage" User.default_user))
    "textToImage"
    = Some (User.mkCounter (User.used (User.mkCounter 0 5) + 1)
                           (User.limit (User.mkCounter 0 5))) ∧
  User.used (User.mkCounter 0 5) + 1 <= User.limit (User.mkCounter 0 5).
Proof.
  apply (check_then_increment_within_limit User.default_user "textToImage"
           (User.mkCounter 0 5)); [discriminate | reflexivity..].
Defined.

(** X4. [incrementFeatureUsage] touches one counter only: the role,
    the subscription and the counter under every other name read the
    same before and after. *)
Theorem incrementFeatureUsage_frame (u : User.t) (f g : string) :
  g ≠ f →
  User.get_feature (User.features (User.incrementFeatureUsage f u)) g
    = User.get_feature (User.features u) g ∧
  User.role (User.incrementFeatureUsage f u) = User.role u ∧
  User.subscription_type (User.incrementFeatureUsage f u) = User.subscription_type u.
Proof.
  intros Hne. unfold User.incrementFeatureUsage.
  destruct (User.get_feature (User.features u) f) as [c |] eqn:Hget; [| done].
  cbn. split; [| done].
  destruct (get_feature_Some_key _ _ _ Hget) as [-> | [-> | [-> | ->]]];
    unfold User.get_feature; cbn;
    repeat match goal with
           | |- context [String.eqb g ?k] =>
               destruct (String.eqb g k) eqn:?
           end;
    try reflexivity;
    repeat match goal with
           | H : String.eqb g _ = true |- _ => apply String.eqb_eq in H
           end;
    congruence.
Qed.

Lemma incrementFeatureUsage_frame_witness :
  User.get_feature
    (User.features (User.incrementFeatureUsage "textToImage" User.default_user))
    "storage"
    = User.get_feature (User.features User.default_user) "storage" ∧
  User.role (User.incrementFeatureUsage "textToImage" User.default_user)
    = User.role User.default_user ∧
  User.subscription_type (User.incrementFeatureUsage "textToImage" User.default_user)
    = User.subscription_type User.default_user.
Proof.
  apply (incrementFeatureUsage_frame User.default_user "textToImage" "storage").
  discriminate.
Defined.

Lemma canUseFeature_entitled_Ok (u : User.t) (f : string) :
  entitled u = true → User.canUseFeature u f = Ok true.
Proof.
  unfold entitled, User.canUseFeature. intros H.
  destruct (decide (User.role u = User.RoleAdmin)); [done |].
  destruct (decide (User.subscription_type u = User.Free)) as [Hfree |]; [| done].
  rewrite bool_decide_eq_false_2 in H by done.
  rewrite bool_decide_eq_true_2 in H by done. discriminate H.
Qed.

(** X5. An administrator, and any account whose subscription is not
    free, passes [canUseFeature] for every name whatsoever, counters
    at their limit and unknown names included; the call never throws
    for them. *)
Theorem canUseFeature_entitled (u : User.t) (f : string) :
  User.role u = User.RoleAdmin ∨ User.subscription_type u ≠ User.Free →
  User.canUseFeature u f = Ok true.
Proof.
  intros H. apply canUseFeature_entitled_Ok. unfold entitled.
  destruct H as [H | H].
  - by rewrite bool_decide_eq_true_2.
  - rewrite (bool_decide_eq_false_2 _ H). apply orb_true_r.
Qed.

Lemma canUseFeature_entitled_witness :
  User.canUseFeature monthly_user "no-such-feature" = Ok true.
Proof.
  apply (canUseFeature_entitled monthly_user "no-such-feature").
  right. discriminate.
Defined.

(** ** The File methods and statics *)

Lemma expired_set_status (now : Z) (st : File.Status) (f : File.t) :
  File.expired now (File.set_status st f) = File.expired now f.
Proof. reflexivity. Qed.

Lemma expired_mono (now now' : Z) (f : File.t) :
  now <= now' → File.expired now f = true → File.expired now' f = true.
Proof.
  unfold File.expired. intros Hle. destruct (File.expiresAt f) as [e |]; [| done].
  rewrite !Z.ltb_lt. lia.
Qed.

(** X7. Sweeps compose to the later one: running [cleanupExpired] at
    two times, in either order, gives the collection that one run at
    the later time gives.  In particular a second run at the same time
    changes nothing. *)
Theorem cleanupExpired_compose (now now' : Z) (fs : gmap nat File.t) :
  now <= now' →
  File.cleanupExpired now' (File.cleanupExpired now fs) = File.cleanupExpired now' fs ∧
  File.cleanupExpired now (File.cleanupExpired now' fs) = File.cleanupExpired now' fs.
Proof.
  intros Hle. unfold File.cleanupExpired. rewrite <- !map_fmap_compose.
  split; apply map_fmap_ext; intros id f _; cbn.
  - destruct (File.expired now f) eqn:E.
    + rewrite expired_set_status, (expired_mono now now' f Hle E). reflexivity.
    + reflexivity.
  - destruct (File.expired now' f) eqn:E'.
    + rewrite expired_set_status. by destruct (File.expired now f).
    + destruct (File.expired now f) eqn:E; [| reflexivity].
      rewrite (expired_mono now now' f Hle E) in E'. discriminate E'.
Qed.

Lemma cleanupExpired_compose_witness :
  let fs : gmap nat File.t :=
    {[ 0%nat := image600 File.Completed (Some 5);
       1%nat := image600 File.Processing (Some 15);
       2%nat := image600 File.Completed None ]} in
  File.cleanupExpired 20 (File.cleanupExpired 10 fs) = File.cleanupExpired 20 fs ∧
  File.cleanupExpired 10 (File.cleanupExpired 20 fs) = File.cleanupExpired 20 fs.
Proof.
  apply (cleanupExpired_compose 10 20). lia.
Defined.

Lemma startProcessing_enum_eq (feat : string) (now : Z) (f : File.t) :
  In feat File.processing_features →
  File.startProcessing feat now f =
    Ok (File.set_processing
          {| File.feature := Some feat; File.progress := 0; File.error := None;
             File.startedAt := Some now; File.completedAt := None |}
          (File.set_status File.Processing f)).
Proof.
  intros Hin.
  assert (existsb (String.eqb feat) File.processing_features = true) as Henum.
  { apply existsb_exists. exists feat. split; [done | apply String.eqb_refl]. }
  unfold File.startProcessing, File.save.
  cbn [forallb File.path_valid File.processing File.set_processing
       File.feature File.progress].
  by rewrite Henum.
Qed.

(** X8. A full processing cycle: [startProcessing] with a feature of
    the enum followed by [completeProcessing] stores the file as
    completed with progress 100, the feature name, both timestamps and
    no error, from whatever state it started (a deleted file comes
    back as completed); size, owner, type, expiry, parent and related
    files are as before. *)
Theorem start_then_complete (feat : string) (t0 t1 : Z) (f : File.t) :
  In feat File.processing_features →
  ∃ f1 f2,
    File.startProcessing feat t0 f = Ok f1 ∧
    File.completeProcessing t1 f1 = Ok f2 ∧
    File.status f2 = File.Completed ∧
    File.processing f2 =
      {| File.feature := Some feat; File.progress := 100; File.error := None;
         File.startedAt := Some t0; File.completedAt := Some t1 |} ∧
    File.size f2 = File.size f ∧ File.user f2 = File.user f ∧
    File.type f2 = File.type f ∧ File.expiresAt f2 = File.expiresAt f ∧
    File.parentFile f2 = File.parentFile f ∧
    File.relatedFiles f2 = File.relatedFiles f.
Proof.
  intros Hin. eexists _, _.
  split; [apply (startProcessing_enum_eq feat t0 f Hin) |].
  split; [apply completeProcessing_eq |].
  by repeat split.
Qed.

Lemma start_then_complete_witness :
  ∃ f1 f2,
    File.startProcessing "compress" 7 (image600 File.Deleted (Some 3)) = Ok f1 ∧
    File.completeProcessing 9 f1 = Ok f2 ∧
    File.status f2 = File.Completed ∧
    File.processing f2 =
      {| File.feature := Some "compress"; File.progress := 100; File.error := None;
         File.startedAt := Some 7; File.completedAt := Some 9 |} ∧
    File.size f2 = File.size (image600 File.Deleted (Some 3)) ∧
    File.user f2 = File.user (image600 File.Deleted (Some 3)) ∧
    File.type f2 = File.type (image600 File.Deleted (Some 3)) ∧
    File.expiresAt f2 = File.expiresAt (image600 File.Deleted (Some 3)) ∧
    File.parentFile f2 = File.parentFile (image600 File.Deleted (Some 3)) ∧
    File.relatedFiles f2 = File.relatedFiles (image600 File.Deleted (Some 3)).
Proof.
  apply (start_then_complete "compress" 7 9 (image600 File.Deleted (Some 3))).
  cbn. tauto.
Defined.

(** X9. [startProcessing] with a feature name outside the schema's
    enum is rejected by [save] with a [ValidationError]: nothing is
    stored. *)
Theorem startProcessing_unknown_feature (feat : string) (now : Z) (f : File.t) :
  ¬ In feat File.processing_features →
  File.startProcessing feat now f = Throw ValidationError.
Proof.
  intros Hnot.
  assert (existsb (String.eqb feat) File.processing_features = false) as Henum.
  { apply not_true_is_false. intros H. apply existsb_exists in H as (x & Hx & Heq).
    apply String.eqb_eq in Heq as ->. contradiction. }
  unfold File.startProcessing, File.save.
  cbn [forallb File.path_valid File.processing File.set_processing
       File.feature File.progress].
  by rewrite Henum.
Qed.

Lemma startProcessing_unknown_feature_witness :
  File.startProcessing "image-resize" 7 (image600 File.Completed None)
    = Throw ValidationError.
Proof.
  apply (startProcessing_unknown_feature "image-resize" 7 (image600 File.Completed None)).
  cbn. intros H. repeat (destruct H as [H | H]; [discriminate H |]). exact H.
Defined.




(** ** The handlers, case by case *)

Lemma resizeImage_is_deriveImage :
  resizeImage = deriveImage true "image-resize" "resize".
Proof. reflexivity. Qed.

Lemma save_user_same (uid : nat) (u : User.t) (db : Db) :
  users db !! uid = Some u → save_user uid u db = db.
Proof.
  intros Hu. destruct db as [fs us]. unfold save_user. cbn in *.
  f_equal. by apply insert_id.
Qed.

(** Every run of a derivation ends in one of three ways: nothing
    changed; the parent was stored as processing and the engine
    failed; or the whole sequence of writes went through. *)
Lemma deriveImage_cases (checkType : bool) (quotaName procName : string)
    (uid : nat) (fileId : option nat) (engine : option Z)
    (newId : nat) (t0 t1 : Z) (db : Db) :
  let out := deriveImage checkType quotaName procName uid fileId engine newId t0 t1 db in
  (out.2 = db ∧ out.1 ≠ Ok200) ∨
  ∃ fid orig u,
    fileId = Some fid ∧ files db !! fid = Some orig ∧ users db !! uid = Some u ∧
    File.user orig = uid ∧
    User.canUseFeature u quotaName = Ok true ∧
    (checkType = true → File.type orig = File.Image) ∧
    File.startProcessing procName t0 orig = Ok (started_parent procName t0 orig) ∧
    ((engine = None ∧
      out = (ServerError500, store_file fid (started_parent procName t0 orig) db)) ∨
     (∃ sz, engine = Some sz ∧
        out = (Ok200,
               save_user uid
                 (User.incrementFeatureUsage quotaName (User.addStorageUsage sz u))
                 (store_file fid
                    (completed_parent newId t1 (started_parent procName t0 orig))
                    (store_file newId (created_file uid sz File.Image (Some fid))
                       (store_file fid (started_parent procName t0 orig) db)))))).
Proof.
  cbn zeta. unfold deriveImage, with_user.
  destruct (users db !! uid) as [u |] eqn:Hu; [| left; done].
  destruct fileId as [fid |]; [| left; done].
  destruct (files db !! fid) as [orig |] eqn:Horig; [| left; done].
  destruct (bool_decide (File.user orig = uid)) eqn:Hown; [| left; done].
  apply bool_decide_eq_true_1 in Hown. cbn [negb].
  destruct (checkType && negb (bool_decide (File.type orig = File.Image))) eqn:Hty;
    [left; done |].
  destruct (User.canUseFeature u quotaName) as [[] | e] eqn:Hcan;
    [| left; done | left; done].
  destruct (File.startProcessing procName t0 orig) as [started | e] eqn:Hstart;
    [| left; done].
  apply save_Ok in Hstart as Hs. destruct Hs as [-> _].
  fold (started_parent procName t0 orig) in *.
  right. exists fid, orig, u. repeat split; try done.
  - intros ->. cbn in Hty. apply negb_false_iff in Hty.
    by apply bool_decide_eq_true_1 in Hty.
  - destruct engine as [sz |]; [right | left; done].
    exists sz. split; [done |]. by rewrite completeProcessing_eq.
Qed.

Lemma textToImage_cases (uid : nat) (prompt : option string) (apiKey generated : bool)
    (download : option Z) (newId : nat) (db : Db) :
  let out := textToImage uid prompt apiKey generated download newId db in
  out.2 = db ∨
  ∃ u sz,
    users db !! uid = Some u ∧ download = Some sz ∧
    User.canUseFeature u "text-to-image" = Ok true ∧
    out = (Ok200,
           save_user uid (User.addStorageUsage sz u)
             (store_file newId (created_file uid sz File.Image None) db)).
Proof.
  cbn zeta. unfold textToImage, with_user.
  destruct (users db !! uid) as [u |] eqn:Hu; [| left; done].
  destruct (negb (truthy prompt)); [left; done |].
  destruct (User.canUseFeature u "text-to-image") as [[] | e] eqn:Hcan;
    [| left; done | left; done].
  destruct (negb apiKey); [left; done |].
  destruct (negb generated); [left; done |].
  destruct download as [sz |]; [| left; done].
  right. exists u, sz. by repeat split.
Qed.

Lemma imageToText_db (uid : nat) (imageUrl : option string)
    (fileId : option nat) (readable worker : bool) (db : Db) :
  (imageToText uid imageUrl fileId readable worker db).2 = db.
Proof.
  unfold imageToText, with_user.
  destruct (users db !! uid) as [u |] eqn:Hu; [| done].
  destruct (negb (truthy imageUrl) && negb (bool_decide (is_Some fileId))); [done |].
  destruct (User.canUseFeature u "image-to-text") as [[] | e]; [| done | done].
  destruct fileId as [fid |]; [| done].
  destruct (files db !! fid) as [f |]; [| done].
  destruct (negb (bool_decide (File.user f = uid))); [done |].
  destruct (negb readable); [done |].
  destruct (negb worker); [done |].
  cbn [snd]. unfold User.incrementFeatureUsage.
  rewrite (controller_names_not_keys _ "image-to-text") by (cbn; tauto).
  by apply save_user_same.
Qed.

Lemma uploadImage_cases (uid : nat) (file : option Z) (readable : bool)
    (newId : nat) (db : Db) :
  let out := uploadImage uid file readable newId db in
  out.2 = db ∨
  ∃ u sz,
    users db !! uid = Some u ∧ file = Some sz ∧
    out = (Ok200,
           save_user uid (User.addStorageUsage sz u)
             (store_file newId (created_file uid sz File.Image None) db)).
Proof.
  cbn zeta. unfold uploadImage, with_user.
  destruct (users db !! uid) as [u |] eqn:Hu; [| left; done].
  destruct file as [sz |]; [| left; done].
  destruct readable; [| left; done].
  right. by exists u, sz.
Qed.

Lemma deleteImage_cases (uid id : nat) (db : Db) :
  let out := deleteImage uid id db in
  out.2 = db ∨
  ∃ u f,
    users db !! uid = Some u ∧ files db !! id = Some f ∧ File.user f = uid ∧
    out = (Ok200,
           {| files := delete id (files db);
              users := <[uid := User.removeStorageUsage (File.size f) u]> (users db) |}).
Proof.
  cbn zeta. unfold deleteImage, with_user.
  destruct (users db !! uid) as [u |] eqn:Hu; [| left; done].
  destruct (files db !! id) as [f |] eqn:Hf; [| left; done].
  destruct (bool_decide (File.user f = uid)) eqn:Hown; [| left; done].
  apply bool_decide_eq_true_1 in Hown.
  right. by exists u, f.
Qed.

Lemma same_identity_started (p : string) (t0 : Z) (orig : File.t) :
  same_identity orig (started_parent p t0 orig).
Proof. by repeat split. Qed.

Lemma same_identity_completed (p : string) (newId : nat) (t0 t1 : Z) (orig : File.t) :
  same_identity orig (completed_parent newId t1 (started_parent p t0 orig)).
Proof. by repeat split. Qed.

Lemma deriveImage_effect (wf : Prop) (checkType : bool) (quotaName procName : string)
    (uid : nat) (fileId : option nat) (engine : option Z)
    (newId : nat) (t0 t1 : Z) (db : Db) :
  In quotaName controller_feature_names →
  (wf → files db !! newId = None ∧ ∀ sz, engine = Some sz → 0 <= sz) →
  effect wf uid db
    (deriveImage checkType quotaName procName uid fileId engine newId t0 t1 db).2.
Proof.
  intros Hq Hwf.
  destruct (deriveImage_cases checkType quotaName procName uid fileId engine
              newId t0 t1 db)
    as [[-> _] | (fid & orig & u & -> & Horig & Hu & Hown & _ & _ & _ & Hout)];
    [constructor |].
  destruct Hout as [[-> ->] | (sz & -> & ->)]; cbn [snd].
  - by apply (eff_start wf uid db fid orig).
  - unfold User.incrementFeatureUsage.
    rewrite (controller_names_not_keys _ quotaName Hq).
    apply (eff_derive wf uid db fid orig u sz newId); try done.
    intros H. destruct (Hwf H) as [Hfresh Hsz]. split; [done | by apply Hsz].
Qed.

(** Every action has one of the five effects. *)
Lemma perform_effect (a : Action) (db : Db) :
  effect (well_formed_action a db) (actor a) db (perform a db).2.
Proof.
  destruct a as [[uid file readable newId | uid fileId engine newId t0 t1 | uid id]
                | d uid fileId engine newId t0 t1
                | uid prompt apiKey generated download newId
                | uid imageUrl fileId readable worker];
    cbn [perform handle actor well_formed_action well_formed_request].
  - destruct (uploadImage_cases uid file readable newId db)
      as [-> | (u & sz & Hu & -> & ->)]; [constructor |].
    cbn [snd]. apply eff_create; [done |].
    intros [Hfresh Hsz]. split; [done | by apply Hsz].
  - rewrite resizeImage_is_deriveImage. apply deriveImage_effect; [cbn; tauto | done].
  - destruct (deleteImage_cases uid id db)
      as [-> | (u & f & Hu & Hf & Hown & ->)]; [constructor |].
    cbn [snd]. by apply (eff_delete _ _ _ u f id).
  - destruct d; cbn [derive]; apply deriveImage_effect; (cbn; tauto) || done.
  - destruct (textToImage_cases uid prompt apiKey generated download newId db)
      as [-> | (u & sz & Hu & -> & _ & ->)]; [constructor |].
    cbn [snd]. apply eff_create; [done |].
    intros [Hfresh Hsz]. split; [done | by apply Hsz].
  - rewrite imageToText_db. constructor.
Qed.

(** ** What no action does *)

Lemma chargeable_status (f : File.t) :
  File.status f = File.Processing ∨ File.status f = File.Completed →
  chargeable f = true.
Proof. unfold chargeable. by intros [-> | ->]. Qed.

Lemma effect_keeps_ledger (wf : Prop) (uid : nat) (db db' : Db) :
  wf → ledger_consistent db → effect wf uid db db' → ledger_consistent db'.
Proof.
  intros Hwf Hdb Heff.
  destruct Heff as [| u sz parent newId Hu Hfresh
                    | fid orig started Horig Hown Hsame Hst
                    | fid orig u sz newId started completed Hu Horig Hown Hfresh
                        Hsame1 Hst1 Hsame2 Hst2
                    | u f id Hu Hf Hown].
  - exact Hdb.
  - destruct (Hfresh Hwf). by apply ledger_consistent_create.
  - destruct Hsame as (Hsz & Hus & _).
    apply (ledger_consistent_restore db fid orig started); try done.
    apply chargeable_status. by left.
  - destruct (Hfresh Hwf) as [Hnew Hsz].
    destruct Hsame1 as (Hsz1 & Hus1 & _). destruct Hsame2 as (Hsz2 & Hus2 & _).
    assert (fid ≠ newId) as Hne by congruence.
    assert (ledger_consistent (store_file fid started db)) as Hdb1.
    { apply (ledger_consistent_restore db fid orig started); try done.
      apply chargeable_status. by left. }
    apply (ledger_consistent_restore
             (save_user uid (User.addStorageUsage sz u)
                (store_file newId (created_file uid sz File.Image (Some fid))
                   (store_file fid started db)))
             fid started completed).
    + apply ledger_consistent_create; try done.
      cbn. by rewrite lookup_insert_ne.
    + cbn. rewrite lookup_insert_ne by done. apply lookup_insert_eq.
    + congruence.
    + congruence.
    + apply chargeable_status. by right.
  - pose proof (deleteImage_keeps_ledger uid id db Hdb) as H.
    unfold deleteImage, with_user in H. rewrite Hu, Hf in H.
    rewrite bool_decide_eq_true_2 in H by done. exact H.
Qed.

Lemma effect_provenance (wf : Prop) (uid : nat) (db db' : Db) (id : nat) (f' : File.t) :
  effect wf uid db db' →
  files db' !! id = Some f' →
  (∃ f, files db !! id = Some f ∧ same_identity f f') ∨ freshly_created f'.
Proof.
  intros Heff Hf'.
  destruct Heff as [| u sz parent newId Hu Hfresh
                    | fid orig started Horig Hown Hsame Hst
                    | fid orig u sz newId started completed Hu Horig Hown Hfresh
                        Hsame1 Hst1 Hsame2 Hst2
                    | u f id0 Hu Hf Hown]; cbn in Hf'.
  - left. exists f'. by repeat split.
  - destruct (decide (id = newId)) as [-> | Hne].
    + rewrite lookup_insert_eq in Hf'. injection Hf' as <-.
      right. by exists uid, sz, parent.
    + rewrite lookup_insert_ne in Hf' by done. left. exists f'. by repeat split.
  - destruct (decide (id = fid)) as [-> | Hne].
    + rewrite lookup_insert_eq in Hf'. injection Hf' as <-. left. by exists orig.
    + rewrite lookup_insert_ne in Hf' by done. left. exists f'. by repeat split.
  - destruct (decide (id = fid)) as [-> | Hne].
    + rewrite lookup_insert_eq in Hf'. injection Hf' as <-. left. by exists orig.
    + rewrite lookup_insert_ne in Hf' by done.
      destruct (decide (id = newId)) as [-> | Hne'].
      * rewrite lookup_insert_eq in Hf'. injection Hf' as <-.
        right. by exists uid, sz, (Some fid).
      * rewrite !lookup_insert_ne in Hf' by done. left. exists f'. by repeat split.
  - apply lookup_delete_Some in Hf' as [_ Hf']. left. exists f'. by repeat split.
Qed.

Lemma effect_isolation (wf : Prop) (uid : nat) (db db' : Db) :
  wf → effect wf uid db db' →
  (∀ uid', uid' ≠ uid → users db' !! uid' = users db !! uid') ∧
  (∀ id f, files db !! id = Some f → File.user f ≠ uid → files db' !! id = Some f).
Proof.
  intros Hwf Heff.
  destruct Heff as [| u sz parent newId Hu Hfresh
                    | fid orig started Horig Hown Hsame Hst
                    | fid orig u sz newId started completed Hu Horig Hown Hfresh
                        Hsame1 Hst1 Hsame2 Hst2
                    | u f0 id0 Hu Hf Hown]; cbn.
  - done.
  - destruct (Hfresh Hwf) as [Hnew _]. split.
    + intros uid' Hne. by rewrite lookup_insert_ne.
    + intros id f Hf Hforeign. rewrite lookup_insert_ne; [done | congruence].
  - split; [done |].
    intros id f Hf Hforeign. rewrite lookup_insert_ne; [done | congruence].
  - destruct (Hfresh Hwf) as [Hnew _]. split.
    + intros uid' Hne. by rewrite lookup_insert_ne.
    + intros id f Hf Hforeign.
      rewrite !lookup_insert_ne; [done | congruence..].
  - split.
    + intros uid' Hne. by rewrite lookup_insert_ne.
    + intros id f Hf' Hforeign. rewrite lookup_delete_ne; [done | congruence].
Qed.



(** X14. Accounts are isolated from each other.  An action of one
    account, with a fresh id for whatever it creates, leaves every
    other account's user record as it was, and leaves every file of
    another owner stored and unchanged. *)
Theorem actions_isolated (a : Action) (db : Db) :
  well_formed_action a db →
  (∀ uid', uid' ≠ actor a → users (perform a db).2 !! uid' = users db !! uid') ∧
  (∀ id f, files db !! id = Some f → File.user f ≠ actor a →
           files (perform a db).2 !! id = Some f).
Proof.
  intros Hwf. exact (effect_isolation _ _ _ _ Hwf (perform_effect a db)).
Qed.

Lemma actions_isolated_witness :
  let db := {| files := {[ 0%nat := image600 File.Completed None ]};
               users := {[ 1%nat := monthly_user; 2%nat := monthly_user ]} |} in
  let a := ActOwner (ReqDelete 2 0) in
  (∀ uid', uid' ≠ actor a → users (perform a db).2 !! uid' = users db !! uid') ∧
  (∀ id f, files db !! id = Some f → File.user f ≠ actor a →
           files (perform a db).2 !! id = Some f).
Proof.
  apply (actions_isolated (ActOwner (ReqDelete 2 0))
           {| files := {[ 0%nat := image600 File.Completed None ]};
              users := {[ 1%nat := monthly_user; 2%nat := monthly_user ]} |}).
  exact I.
Defined.

Lemma reachable_ledger_consistent (db0 db : Db) :
  ledger_consistent db0 → reachable_by_actions db0 db → ledger_consistent db.
Proof.
  intros H0 Hreach. induction Hreach as [| db a Hreach IH Hwf]; [done |].
  exact (effect_keeps_ledger _ _ _ _ Hwf IH (perform_effect a db)).
Qed.

(** X15. Starting with no files and all storage counters at zero, no
    sequence of handler actions (upload, the four derivations with a
    succeeding or failing engine, text-to-image, image-to-text, owner
    delete) lets an account's counter drift: it always equals the sum
    of the sizes of the account's completed and processing files. *)
Theorem storage_invariant_all_actions (db0 db : Db) :
  files db0 = ∅ →
  (∀ uid u, users db0 !! uid = Some u → User.storage_used u = 0) →
  reachable_by_actions db0 db →
  spec_storage_invariant db.
Proof.
  intros Hempty Hzero Hreach.
  exact (proj1 (reachable_ledger_consistent db0 db
                  (ledger_consistent_initial db0 Hempty Hzero) Hreach)).
Qed.

Lemma storage_invariant_all_actions_witness :
  spec_storage_invariant
    (perform (ActDerive Enhance 1 (Some 0%nat) None 1 10 11)
       (perform (ActTextToImage 1 (Some "a red kite") true true (Some 2048) 0)
          (one_user_db monthly_user ∅)).2).2.
Proof.
  apply (storage_invariant_all_actions (one_user_db monthly_user ∅)).
  - reflexivity.
  - intros uid u Hu. cbn in Hu. apply lookup_singleton_Some in Hu as [_ <-].
    reflexivity.
  - apply reach_actions_step; [apply reach_actions_step; [apply reach_actions_refl |] |].
    + split; [reflexivity |]. intros sz [= <-]. lia.
    + split; [reflexivity |]. intros sz [=].
Defined.

Lemma cleanupExpired_unexpired (now : Z) (fs : gmap nat File.t) :
  (∀ id f, fs !! id = Some f → File.expired now f = false) →
  File.cleanupExpired now fs = fs.
Proof.
  intros Hnone. apply map_eq. intros id. unfold File.cleanupExpired.
  rewrite lookup_fmap. destruct (fs !! id) as [f |] eqn:Hf; [| done].
  cbn. by rewrite (Hnone id f Hf).
Qed.

Lemma reachable_no_expiry (db0 db : Db) :
  files db0 = ∅ → reachable_by_actions db0 db →
  ∀ id f, files db !! id = Some f → File.expiresAt f = None.
Proof.
  intros Hempty Hreach. induction Hreach as [| db a Hreach IH Hwf]; intros id f Hf.
  - rewrite Hempty, lookup_empty in Hf. discriminate Hf.
  - destruct (effect_provenance _ _ _ _ id f (perform_effect a db) Hf)
      as [(f0 & Hf0 & _ & _ & _ & Hexp & _) | (uid & sz & parent & ->)].
    + rewrite Hexp. by apply (IH id).
    + reflexivity.
Qed.

(** X16. The handlers never set an expiry date, so on every database
    they build from an empty file collection the expiry sweep is a
    no-op at every time: [cleanupExpired] finds nothing to delete. *)
Theorem cleanup_noop_on_handler_files (db0 db : Db) (now : Z) :
  files db0 = ∅ →
  reachable_by_actions db0 db →
  runCleanupExpired now db = db.
Proof.
  intros Hempty Hreach. destruct db as [fs us] eqn:Hdb.
  unfold runCleanupExpired. cbn. f_equal.
  apply cleanupExpired_unexpired. intros id f Hf.
  unfold File.expired.
  by rewrite (reachable_no_expiry db0 _ Hempty Hreach id f Hf).
Qed.

Lemma cleanup_noop_on_handler_files_witness :
  let db := (perform (ActOwner (ReqUpload 1 (Some 600) true 0))
               (one_user_db User.default_user ∅)).2 in
  runCleanupExpired 1000000 db = db.
Proof.
  apply (cleanup_noop_on_handler_files (one_user_db User.default_user ∅)).
  - reflexivity.
  - apply reach_actions_step; [apply reach_actions_refl |].
    split; [reflexivity |]. intros sz [= <-]. lia.
Defined.

(** ** The aggregate against the counter *)

Lemma usage_matches_charged (uid : nat) (f : File.t) :
  chargeable f = true →
  charged_bytes uid f = if usage_matches uid f then File.size f else 0.
Proof.
  unfold charged_bytes, usage_matches, chargeable. intros Hch. rewrite Hch.
  destruct (bool_decide (File.user f = uid)); [| done].
  destruct (File.status f); try discriminate Hch; done.
Qed.

Lemma usage_total_live (uid : nat) (fs : gmap nat File.t) :
  (∀ id f, fs !! id = Some f → chargeable f = true) →
  map_fold (λ _ f acc, File.size f + acc) 0
    (filter (λ kv, usage_matches uid kv.2 = true) fs)
  = owned_live_bytes uid fs.
Proof.
  induction fs as [| i f fs Hfresh IH] using map_ind; intros Hch.
  - by rewrite map_filter_empty, map_fold_empty, owned_live_bytes_empty.
  - assert (chargeable f = true) as Hf by (apply (Hch i); apply lookup_insert_eq).
    assert (∀ id g, fs !! id = Some g → chargeable g = true) as Hrest.
    { intros j g Hg. apply (Hch j). rewrite lookup_insert_ne; [done | congruence]. }
    rewrite owned_live_bytes_insert_fresh by done.
    rewrite (usage_matches_charged uid f Hf), <- (IH Hrest).
    rewrite map_filter_insert. cbn [snd].
    destruct (usage_matches uid f) eqn:Hm.
    + rewrite decide_True by done.
      rewrite map_fold_insert_L; [done | intros; lia |].
      apply map_lookup_filter_None_2. by left.
    + rewrite decide_False by done. by rewrite delete_id.
Qed.

(** X17. On every database the handlers build from an empty file
    collection with zeroed counters, the aggregate [getStorageUsage]
    and the cached counter agree: when the account has no file the
    aggregate yields no row and the counter is 0; otherwise it yields
    exactly one row, for that account, whose [totalSize] is the
    account's [features.storage.used] and whose [fileCount] is
    positive. *)
Theorem getStorageUsage_agrees_with_counter (db0 db : Db) (uid : nat) (u : User.t) :
  files db0 = ∅ →
  (∀ uid u, users db0 !! uid = Some u → User.storage_used u = 0) →
  reachable_by_actions db0 db →
  users db !! uid = Some u →
  match getStorageUsage uid (files db) with
  | [] => User.storage_used u = 0
  | [row] => group_id row = uid ∧ totalSize row = User.storage_used u ∧
             (0 < fileCount row)%nat
  | _ => False
  end.
Proof.
  intros Hempty Hzero Hreach Hu.
  destruct (reachable_ledger_consistent db0 db
              (ledger_consistent_initial db0 Hempty Hzero) Hreach) as [Hinv Hfiles].
  assert (∀ id f, files db !! id = Some f → chargeable f = true) as Hch.
  { intros id f Hf. by destruct (Hfiles id f Hf). }
  pose proof (usage_total_live uid (files db) Hch) as Htotal.
  unfold getStorageUsage.
  destruct (bool_decide (filter (λ kv, usage_matches uid kv.2 = true) (files db) = ∅))
    eqn:Hemp.
  - apply bool_decide_eq_true_1 in Hemp. rewrite Hemp, map_fold_empty in Htotal.
    rewrite (Hinv uid u Hu). by rewrite <- Htotal.
  - apply bool_decide_eq_false_1 in Hemp. cbn.
    repeat split.
    + rewrite Htotal. symmetry. by apply Hinv.
    + apply map_size_non_empty_iff in Hemp. lia.
Qed.

Lemma getStorageUsage_agrees_with_counter_witness :
  let db := (perform (ActDerive RemoveBackground 1 (Some 0%nat) (Some 50) 1 10 11)
               (perform (ActOwner (ReqUpload 1 (Some 600) true 0))
                  (one_user_db monthly_user ∅)).2).2 in
  match getStorageUsage 1 (files db) with
  | [] => User.storage_used
            (User.addStorageUsage 50 (User.addStorageUsage 600 monthly_user)) = 0
  | [row] => group_id row = 1%nat ∧
             totalSize row = User.storage_used
               (User.addStorageUsage 50 (User.addStorageUsage 600 monthly_user)) ∧
             (0 < fileCount row)%nat
  | _ => False
  end.
Proof.
  apply (getStorageUsage_agrees_with_counter (one_user_db monthly_user ∅)).
  - reflexivity.
  - intros uid u Hu. cbn in Hu. apply lookup_singleton_Some in Hu as [_ <-].
    reflexivity.
  - apply reach_actions_step; [apply reach_actions_step; [apply reach_actions_refl |] |].
    + split; [reflexivity |]. intros sz [= <-]. lia.
    + split; [reflexivity |]. intros sz [= <-]. lia.
  - reflexivity.
Defined.

(** The aggregate of the example: two files, 650 bytes. *)
Lemma getStorageUsage_example :
  getStorageUsage 1
    (files (perform (ActDerive RemoveBackground 1 (Some 0%nat) (Some 50) 1 10 11)
              (perform (ActOwner (ReqUpload 1 (Some 600) true 0))
                 (one_user_db monthly_user ∅)).2).2)
  = [ {| group_id := 1; totalSize := 650; fileCount := 2 |} ].
Proof. vm_compute. reflexivity. Qed.

(** ** The administrator's delete route *)

(** X18. Deleting a stored file through the administrator's route
    answers 200, removes that record and no other, lowers the owner's
    sum of live bytes by what the file contributed to it, and leaves
    every user record, the owner's counter included, untouched; a
    second call for the same id answers 404 and changes nothing. *)
Theorem adminDeleteFile_effect (id : nat) (db : Db) (f : File.t) :
  files db !! id = Some f →
  let out := adminDeleteFile id db in
  out.1 = Ok200 ∧
  files out.2 = delete id (files db) ∧
  users out.2 = users db ∧
  owned_live_bytes (File.user f) (files out.2)
    = owned_live_bytes (File.user f) (files db) - charged_bytes (File.user f) f ∧
  adminDeleteFile id out.2 = (NotFound404, out.2).
Proof.
  intros Hf. cbn zeta. unfold adminDeleteFile at 1 2 3 4. rewrite Hf. cbn.
  repeat split.
  - by apply owned_live_bytes_delete.
  - unfold adminDeleteFile. rewrite Hf. cbn. by rewrite lookup_delete_eq.
Qed.

Lemma adminDeleteFile_effect_witness :
  let db := one_user_db (User.addStorageUsage 600 User.default_user)
              {[ 0%nat := image600 File.Completed None ]} in
  let out := adminDeleteFile 0 db in
  out.1 = Ok200 ∧
  files out.2 = delete 0%nat (files db) ∧
  users out.2 = users db ∧
  owned_live_bytes (File.user (image600 File.Completed None)) (files out.2)
    = owned_live_bytes (File.user (image600 File.Completed None)) (files db)
      - charged_bytes (File.user (image600 File.Completed None))
          (image600 File.Completed None) ∧
  adminDeleteFile 0 out.2 = (NotFound404, out.2).
Proof.
  apply (adminDeleteFile_effect 0
           (one_user_db (User.addStorageUsage 600 User.default_user)
              {[ 0%nat := image600 File.Completed None ]})
           (image600 File.Completed None)).
  reflexivity.
Defined.

(** ** The derivation handlers *)

Lemma free_account_not_allowed (u : User.t) (f : string) :
  entitled u = false →
  In f controller_feature_names →
  User.canUseFeature u f = Throw TypeError.
Proof.
  unfold entitled. intros Hent Hin.
  apply orb_false_iff in Hent as [Hrole Hsub].
  apply bool_decide_eq_false_1 in Hrole.
  apply negb_false_iff, bool_decide_eq_true_1 in Hsub.
  unfold User.canUseFeature.
  destruct (decide (User.role u = User.RoleAdmin)); [contradiction |].
  destruct (decide (User.subscription_type u = User.Free)); [| contradiction].
  by rewrite (controller_names_not_keys u f Hin).
Qed.

Lemma deriveImage_free_account (checkType : bool) (quotaName procName : string)
    (uid : nat) (u : User.t) (fileId : option nat) (engine : option Z)
    (newId : nat) (t0 t1 : Z) (db : Db) :
  users db !! uid = Some u →
  entitled u = false →
  In quotaName controller_feature_names →
  let out := deriveImage checkType quotaName procName uid fileId engine newId t0 t1 db in
  out.2 = db ∧ out.1 ≠ Ok200.
Proof.
  intros Hu Hent Hq.
  destruct (deriveImage_cases checkType quotaName procName uid fileId engine
              newId t0 t1 db)
    as [H | (fid & orig & u' & _ & _ & Hu' & _ & Hcan & _)]; [exact H |].
  rewrite Hu in Hu'. injection Hu' as <-.
  rewrite (free_account_not_allowed u quotaName Hent Hq) in Hcan. discriminate Hcan.
Qed.

(** X19. A free account that is not an administrator can derive
    nothing: resize, compress, enhance and remove-background never
    answer 200 for it and leave the database exactly as it was,
    whatever the request and whatever its counters. *)
Theorem derivations_closed_to_free_accounts (uid : nat) (u : User.t)
    (fileId : option nat) (engine : option Z) (newId : nat) (t0 t1 : Z) (db : Db) :
  users db !! uid = Some u →
  User.role u ≠ User.RoleAdmin →
  User.subscription_type u = User.Free →
  Forall (λ handler : nat → option nat → option Z → nat → Z → Z → Db → Response * Db,
            (handler uid fileId engine newId t0 t1 db).2 = db ∧
            (handler uid fileId engine newId t0 t1 db).1 ≠ Ok200)
    [resizeImage; compressImage; enhanceImage; removeBackground].
Proof.
  intros Hu Hrole Hsub.
  assert (entitled u = false) as Hent.
  { unfold entitled. rewrite bool_decide_eq_false_2 by done.
    by rewrite bool_decide_eq_true_2. }
  rewrite resizeImage_is_deriveImage.
  repeat constructor;
    apply (deriveImage_free_account _ _ _ uid u); (done || (cbn; tauto)).
Qed.

Lemma derivations_closed_to_free_accounts_witness :
  let db := one_user_db User.default_user {[ 0%nat := image600 File.Completed None ]} in
  Forall (λ handler : nat → option nat → option Z → nat → Z → Z → Db → Response * Db,
            (handler 1%nat (Some 0%nat) (Some 50) 5%nat 10 11 db).2 = db ∧
            (handler 1%nat (Some 0%nat) (Some 50) 5%nat 10 11 db).1 ≠ Ok200)
    [resizeImage; compressImage; enhanceImage; removeBackground].
Proof.
  apply (derivations_closed_to_free_accounts 1 User.default_user (Some 0%nat)
           (Some 50) 5 10 11
           (one_user_db User.default_user {[ 0%nat := image600 File.Completed None ]}));
    [reflexivity | discriminate | reflexivity].
Defined.

Lemma deriveImage_entitled_eq (checkType : bool) (quotaName procName : string)
    (uid fid : nat) (engine : option Z) (newId : nat) (t0 t1 : Z) (db : Db)
    (u : User.t) (orig : File.t) :
  users db !! uid = Some u →
  entitled u = true →
  files db !! fid = Some orig →
  File.user orig = uid →
  (checkType = true → File.type orig = File.Image) →
  In quotaName controller_feature_names →
  In procName File.processing_features →
  deriveImage checkType quotaName procName uid (Some fid) engine newId t0 t1 db =
    match engine with
    | None => (ServerError500, store_file fid (started_parent procName t0 orig) db)
    | Some sz =>
        (Ok200,
         save_user uid (User.addStorageUsage sz u)
           (store_file fid (completed_parent newId t1 (started_parent procName t0 orig))
              (store_file newId (created_file uid sz File.Image (Some fid))
                 (store_file fid (started_parent procName t0 orig) db))))
    end.
Proof.
  intros Hu Hent Horig Hown Hty Hq Hp.
  unfold deriveImage. rewrite (with_user_found _ _ _ _ Hu), Horig.
  rewrite bool_decide_eq_true_2 by done. cbn [negb].
  assert (checkType && negb (bool_decide (File.type orig = File.Image)) = false) as ->.
  { destruct checkType; [| done]. cbn. by rewrite bool_decide_eq_true_2 by auto. }
  rewrite (canUseFeature_entitled_Ok u quotaName Hent).
  rewrite (startProcessing_enum_eq procName t0 orig Hp).
  fold (started_parent procName t0 orig).
  destruct engine as [sz |]; [| done].
  rewrite completeProcessing_eq.
  fold (completed_parent newId t1 (started_parent procName t0 orig)).
  unfold User.incrementFeatureUsage.
  by rewrite (controller_names_not_keys _ quotaName Hq).
Qed.

(** X20. When the engine fails during a derivation by an entitled
    account (an administrator or a paying subscriber) on its own file,
    the handler answers 500 and the parent remains stored as
    processing: nothing puts it back.  No record is created and no
    user record changes. *)
Theorem derive_engine_failure_strands_parent (checkType : bool)
    (quotaName procName : string) (uid fid newId : nat) (t0 t1 : Z) (db : Db)
    (u : User.t) (orig : File.t) :
  users db !! uid = Some u →
  entitled u = true →
  files db !! fid = Some orig →
  File.user orig = uid →
  (checkType = true → File.type orig = File.Image) →
  In quotaName controller_feature_names →
  In procName File.processing_features →
  let out := deriveImage checkType quotaName procName uid (Some fid) None newId t0 t1 db in
  out.1 = ServerError500 ∧
  users out.2 = users db ∧
  ∃ parent',
    files out.2 = <[fid := parent']> (files db) ∧
    File.status parent' = File.Processing ∧
    same_identity orig parent' ∧
    File.relatedFiles parent' = File.relatedFiles orig.
Proof.
  intros Hu Hent Horig Hown Hty Hq Hp. cbn zeta.
  rewrite (deriveImage_entitled_eq checkType quotaName procName uid fid None newId
             t0 t1 db u orig) by done.
  cbn. repeat split. eexists. by repeat split.
Qed.

Lemma derive_engine_failure_strands_parent_witness :
  let db := one_user_db monthly_user {[ 0%nat := image600 File.Completed None ]} in
  let out := deriveImage false "image-compress" "compress" 1 (Some 0%nat) None 5 10 11 db in
  out.1 = ServerError500 ∧
  users out.2 = users db ∧
  ∃ parent',
    files out.2 = <[0%nat := parent']> (files db) ∧
    File.status parent' = File.Processing ∧
    same_identity (image600 File.Completed None) parent' ∧
    File.relatedFiles parent' = File.relatedFiles (image600 File.Completed None).
Proof.
  apply (derive_engine_failure_strands_parent false "image-compress" "compress"
           1 0 5 10 11
           (one_user_db monthly_user {[ 0%nat := image600 File.Completed None ]})
           monthly_user (image600 File.Completed None));
    try reflexivity; try discriminate; cbn; tauto.
Defined.

(** X21. A derivation that succeeds, by an entitled account on its own
    file with a fresh id for the output: the handler answers 200; the
    output is stored as a completed image of the engine's size whose
    parent is the input; the input is stored as completed with
    progress 100 and the output appended to its related files, its
    size, owner, type, expiry and parent as before; the account's
    storage counter grows by the output's size and nothing else in its
    record changes; all other files are untouched. *)
Theorem derive_success (checkType : bool) (quotaName procName : string)
    (uid fid newId : nat) (sz t0 t1 : Z) (db : Db) (u : User.t) (orig : File.t) :
  users db !! uid = Some u →
  entitled u = true →
  files db !! fid = Some orig →
  File.user orig = uid →
  (checkType = true → File.type orig = File.Image) →
  In quotaName controller_feature_names →
  In procName File.processing_features →
  files db !! newId = None →
  let out := deriveImage checkType quotaName procName uid (Some fid) (Some sz)
               newId t0 t1 db in
  out.1 = Ok200 ∧
  files out.2 !! newId = Some (created_file uid sz File.Image (Some fid)) ∧
  (∃ parent',
     files out.2 !! fid = Some parent' ∧
     File.status parent' = File.Completed ∧
     File.progress (File.processing parent') = 100 ∧
     File.relatedFiles parent' = (File.relatedFiles orig ++ [newId])%list ∧
     same_identity orig parent') ∧
  users out.2 = <[uid := User.addStorageUsage sz u]> (users db) ∧
  (∀ id, id ≠ fid → id ≠ newId → files out.2 !! id = files db !! id).
Proof.
  intros Hu Hent Horig Hown Hty Hq Hp Hfresh. cbn zeta.
  assert (fid ≠ newId) as Hne by congruence.
  rewrite (deriveImage_entitled_eq checkType quotaName procName uid fid (Some sz)
             newId t0 t1 db u orig) by done.
  cbn. repeat split.
  - rewrite lookup_insert_ne by done. apply lookup_insert_eq.
  - eexists. split; [apply lookup_insert_eq |]. by repeat split.
  - intros id H1 H2. by rewrite !lookup_insert_ne.
Qed.

Lemma derive_success_witness :
  let db := one_user_db monthly_user {[ 0%nat := image600 File.Completed None ]} in
  let out := deriveImage true "image-resize" "resize" 1 (Some 0%nat) (Some 50)
               5 10 11 db in
  out.1 = Ok200 ∧
  files out.2 !! 5%nat = Some (created_file 1 50 File.Image (Some 0%nat)) ∧
  (∃ parent',
     files out.2 !! 0%nat = Some parent' ∧
     File.status parent' = File.Completed ∧
     File.progress (File.processing parent') = 100 ∧
     File.relatedFiles parent'
       = (File.relatedFiles (image600 File.Completed None) ++ [5%nat])%list ∧
     same_identity (image600 File.Completed None) parent') ∧
  users out.2 = <[1%nat := User.addStorageUsage 50 monthly_user]> (users db) ∧
  (∀ id, id ≠ 0%nat → id ≠ 5%nat → files out.2 !! id = files db !! id).
Proof.
  apply (derive_success true "image-resize" "resize" 1 0 5 50 10 11
           (one_user_db monthly_user {[ 0%nat := image600 File.Completed None ]})
           monthly_user (image600 File.Completed None));
    try reflexivity; cbn; tauto.
Defined.

(** ** The AI handlers and the usage counters *)


(** X22. For an entitled account that sends a prompt, with the API key
    configured and the generation succeeding, [textToImage] answers
    200 whether or not the picture can be saved locally.  If it cannot,
    nothing is stored and nothing is charged; if it can, one completed
    image without parent is stored and its size is added to the
    account's storage counter. *)
Theorem textToImage_entitled (uid : nat) (prompt : option string)
    (download : option Z) (newId : nat) (db : Db) (u : User.t) :
  users db !! uid = Some u →
  entitled u = true →
  truthy prompt = true →
  textToImage uid prompt true true download newId db =
    (Ok200,
     match download with
     | None => db
     | Some sz =>
         save_user uid (User.addStorageUsage sz u)
           (store_file newId (created_file uid sz File.Image None) db)
     end).
Proof.
  intros Hu Hent Hprompt. unfold textToImage.
  rewrite (with_user_found _ _ _ _ Hu), Hprompt.
  rewrite (canUseFeature_entitled_Ok u "text-to-image" Hent). cbn [negb].
  by destruct download.
Qed.

Lemma textToImage_entitled_witness :
  textToImage 1 (Some "a red kite") true true None 0 (one_user_db monthly_user ∅)
    = (Ok200, one_user_db monthly_user ∅).
Proof.
  apply (textToImage_entitled 1 (Some "a red kite") None 0
           (one_user_db monthly_user ∅) monthly_user); reflexivity.
Defined.

Lemma set_storage_used_same (u : User.t) :
  User.set_storage_used u (User.storage_used u) = u.
Proof. by destruct u as [r s [a b c [us lim]]]. Qed.

Lemma effect_users (wf : Prop) (uid : nat) (db db' : Db) (uid' : nat) (u' : User.t) :
  effect wf uid db db' →
  users db !! uid' = Some u' →
  ∃ v, users db' !! uid' = Some (User.set_storage_used u' v).
Proof.
  intros Heff Hu'.
  assert (∀ w, users db !! uid = Some w → ∀ v,
            ∃ v', <[uid := User.set_storage_used w v]> (users db) !! uid'
                  = Some (User.set_storage_used u' v')) as Hupd.
  { intros w Hw v. destruct (decide (uid' = uid)) as [-> | Hne].
    - rewrite lookup_insert_eq. exists v. congruence.
    - rewrite lookup_insert_ne by done. exists (User.storage_used u').
      by rewrite set_storage_used_same. }
  destruct Heff as [| u sz parent newId Hu Hfresh
                    | fid orig started Horig Hown Hsame Hst
                    | fid orig u sz newId started completed Hu Horig Hown Hfresh
                        Hsame1 Hst1 Hsame2 Hst2
                    | u f id Hu Hf Hown]; cbn.
  - exists (User.storage_used u'). by rewrite set_storage_used_same.
  - apply (Hupd u Hu).
  - exists (User.storage_used u'). by rewrite set_storage_used_same.
  - apply (Hupd u Hu).
  - apply (Hupd u Hu).
Qed.

(** X23. No handler action ever moves a feature usage counter, a
    limit, a role or a subscription, and none removes an account: the
    user record of every account after an action is its record before,
    except possibly for [features.storage.used]. *)
Theorem actions_change_only_storage_used (a : Action) (db : Db) (uid : nat) (u : User.t) :
  users db !! uid = Some u →
  ∃ v, users (perform a db).2 !! uid = Some (User.set_storage_used u v).
Proof. intros Hu. exact (effect_users _ _ _ _ uid u (perform_effect a db) Hu). Qed.

Lemma actions_change_only_storage_used_witness :
  ∃ v, users (perform (ActTextToImage 1 (Some "a red kite") true true (Some 2048) 0)
                (one_user_db monthly_user ∅)).2 !! 1%nat
       = Some (User.set_storage_used monthly_user v).
Proof.
  apply (actions_change_only_storage_used
           (ActTextToImage 1 (Some "a red kite") true true (Some 2048) 0)
           (one_user_db monthly_user ∅) 1 monthly_user).
  reflexivity.
Defined.

(** ** Handlers in sequence *)



(** X25. Deleting a parent does not cascade.  After a successful
    derivation, the owner's delete of the input answers 200 and
    removes the input's record, while the derived file stays stored,
    completed, and still names the removed record as its parent. *)
Theorem delete_parent_keeps_child (checkType : bool) (quotaName procName : string)
    (uid fid newId : nat) (sz t0 t1 : Z) (db : Db) (u : User.t) (orig : File.t) :
  users db !! uid = Some u →
  entitled u = true →
  files db !! fid = Some orig →
  File.user orig = uid →
  (checkType = true → File.type orig = File.Image) →
  In quotaName controller_feature_names →
  In procName File.processing_features →
  files db !! newId = None →
  let db1 := (deriveImage checkType quotaName procName uid (Some fid) (Some sz)
                newId t0 t1 db).2 in
  let out := deleteImage uid fid db1 in
  out.1 = Ok200 ∧
  files out.2 !! fid = None ∧
  files out.2 !! newId = Some (created_file uid sz File.Image (Some fid)) ∧
  File.parentFile (created_file uid sz File.Image (Some fid)) = Some fid.
Proof.
  intros Hu Hent Horig Hown Hty Hq Hp Hfresh. cbn zeta.
  assert (fid ≠ newId) as Hne by congruence.
  rewrite (deriveImage_entitled_eq checkType quotaName procName uid fid (Some sz)
             newId t0 t1 db u orig) by done.
  unfold deleteImage, with_user. cbn.
  rewrite !lookup_insert_eq. cbn.
  rewrite bool_decide_eq_true_2 by done. cbn.
  repeat split.
  - apply lookup_delete_eq.
  - rewrite lookup_delete_ne by done.
    rewrite lookup_insert_ne by done. apply lookup_insert_eq.
Qed.

Lemma delete_parent_keeps_child_witness :
  let db := one_user_db monthly_user {[ 0%nat := image600 File.Completed None ]} in
  let db1 := (deriveImage false "background-remove" "background-remove" 1
                (Some 0%nat) (Some 50) 5 10 11 db).2 in
  let out := deleteImage 1 0 db1 in
  out.1 = Ok200 ∧
  files out.2 !! 0%nat = None ∧
  files out.2 !! 5%nat = Some (created_file 1 50 File.Image (Some 0%nat)) ∧
  File.parentFile (created_file 1 50 File.Image (Some 0%nat)) = Some 0%nat.
Proof.
  apply (delete_parent_keeps_child false "background-remove" "background-remove"
           1 0 5 50 10 11
           (one_user_db monthly_user {[ 0%nat := image600 File.Completed None ]})
           monthly_user (image600 File.Completed None));
    try reflexivity; try discriminate; cbn; tauto.
Defined.

(** ** The sweep against the aggregate *)

(** X6. Once the sweep has run, an account all of whose files had
    expired has no row in [getStorageUsage]: files marked deleted drop
    out of the aggregate (while, the sweep touching no user record,
    the cached counter keeps counting them). *)
Theorem sweep_empties_aggregate (uid : nat) (now : Z) (db : Db) :
  (∀ id f, files db !! id = Some f → File.user f = uid → File.expired now f = true) →
  getStorageUsage uid (files (runCleanupExpired now db)) = [] ∧
  users (runCleanupExpired now db) = users db.
Proof.
  intros Hexp. split; [| reflexivity].
  unfold getStorageUsage. rewrite bool_decide_eq_true_2; [done |].
  apply map_empty. intros id. apply map_lookup_filter_None_2.
  cbn [runCleanupExpired files]. unfold File.cleanupExpired.
  rewrite lookup_fmap.
  destruct (files db !! id) as [f |] eqn:Hf; [right | left; done].
  intros g Hg. cbn in Hg. injection Hg as <-. cbn [snd].
  unfold usage_matches. intros Hm. apply andb_true_iff in Hm as [Hown Hst].
  apply bool_decide_eq_true_1 in Hown.
  destruct (File.expired now f) eqn:E.
  - cbn in Hst. discriminate Hst.
  - rewrite (Hexp id f Hf Hown) in E. discriminate E.
Qed.

Lemma sweep_empties_aggregate_witness :
  let db := one_user_db (User.addStorageUsage 600 User.default_user)
              {[ 0%nat := image600 File.Completed (Some 10) ]} in
  getStorageUsage 1 (files (runCleanupExpired 20 db)) = [] ∧
  users (runCleanupExpired 20 db) = users db.
Proof.
  apply (sweep_empties_aggregate 1 20
           (one_user_db (User.addStorageUsage 600 User.default_user)
              {[ 0%nat := image600 File.Completed (Some 10) ]})).
  intros id f Hf _. cbn in Hf.
  apply lookup_singleton_Some in Hf as [_ <-]. reflexivity.
Defined.
